(** * Metrics aggregation of the chat-bot telemetry recorder

    A shallow embedding of [Metrics] from [main.py] (the aggregator that
    records chat events in a Redis store and computes usage snapshots),
    together with the part of the Redis data model that the class uses.

    Integers are Python integers, hence [Z].  Texts are [string]s over
    ASCII.  The Redis key space is a finite map from key names to typed
    values; sorted-set scores and counters are the integers the program
    writes (Unix-epoch seconds and event counts). *)

From Stdlib Require Import ZArith String Ascii List Lia.
From Stdlib Require Import DecimalString DecimalPos.
From stdpp Require Import gmap strings list fin_maps.

Local Open Scope Z_scope.

(** ** Results of calls that may raise *)

Inductive exn :=
| ResponseError (msg : string)   (* error reply of the Redis server *)
| ValueError                     (* Python: text is not a number *)
| OverflowError.                 (* Python: int() of an infinite float *)

Inductive result (A : Type) :=
| Ok (a : A)
| Raise (e : exn).
Arguments Ok {A} a.
Arguments Raise {A} e.

Definition is_ok {A} (r : result A) : bool :=
  match r with Ok _ => true | Raise _ => false end.

(** ** Texts and numbers *)

Module Text.

(** [str n]: the decimal text of an integer, as Python's [str]/[repr] and
    the Redis server print it. *)
Definition str (n : Z) : string := NilEmpty.string_of_int (Z.to_int n).

Definition chars (s : string) : list ascii := list_ascii_of_string s.

Definition is_space (c : ascii) : bool :=
  let n := nat_of_ascii c in
  (Nat.leb 9 n && Nat.leb n 13) || (Nat.leb 28 n && Nat.leb n 32).

Definition digit_of (c : ascii) : option Z :=
  let n := Z.of_nat (nat_of_ascii c) in
  if (48 <=? n) && (n <=? 57) then Some (n - 48) else None.

Definition is_char (c : ascii) (d : string) : bool :=
  match d with
  | String d' EmptyString => Ascii.eqb c d'
  | _ => false
  end.

Fixpoint lstrip (s : list ascii) : list ascii :=
  match s with
  | c :: s' => if is_space c then lstrip s' else s
  | [] => []
  end.

Definition strip (s : list ascii) : list ascii :=
  rev (lstrip (rev (lstrip s))).

(** The rest of a digit part [digit (["_"] digit)*] after its first digit:
    [acc] is the value read so far and [k] the number of digits read so
    far; the unread input is returned with them. *)
Fixpoint digits_tail (s : list ascii) (acc : Z) (k : Z) : Z * Z * list ascii :=
  match s with
  | [] => (acc, k, [])
  | c :: s' =>
      match digit_of c with
      | Some d => digits_tail s' (10 * acc + d) (k + 1)
      | None =>
          if is_char c "_" then
            match s' with
            | c' :: s'' =>
                match digit_of c' with
                | Some d => digits_tail s'' (10 * acc + d) (k + 1)
                | None => (acc, k, s)
                end
            | [] => (acc, k, s)
            end
          else (acc, k, s)
      end
  end.

Definition digitpart (s : list ascii) (acc : Z) (k : Z)
  : option (Z * Z * list ascii) :=
  match s with
  | c :: s' =>
      match digit_of c with
      | Some d => Some (digits_tail s' (10 * acc + d) (k + 1))
      | None => None
      end
  | [] => None
  end.

(** An optional sign; [true] stands for a minus. *)
Definition sign (s : list ascii) : bool * list ascii :=
  match s with
  | c :: s' =>
      if is_char c "-" then (true, s')
      else if is_char c "+" then (false, s')
      else (false, s)
  | [] => (false, [])
  end.

Definition apply_sign (neg : bool) (n : Z) : Z := if neg then - n else n.

(** Python's [int(s)] for a text [s], base ten. *)
Definition py_int (s : string) : result Z :=
  let (neg, s1) := sign (strip (chars s)) in
  match digitpart s1 0 0 with
  | Some (n, _, []) => Ok (apply_sign neg n)
  | _ => Raise ValueError
  end.

(** The integer a Redis string holds, if it is the decimal text of one
    (the server accepts the canonical text only: no blanks, no plus sign,
    no leading zeros). *)
Definition redis_int (s : string) : option Z :=
  match py_int s with
  | Ok n => if String.eqb (str n) s then Some n else None
  | Raise _ => None
  end.

(** *** Binary64 floats, as far as [int(float(s))] needs them *)

Inductive pyfloat :=
| Finite (neg : bool) (m e : Z)      (* (-1)^neg * m * 2^e, 0 <= m <= 2^53 *)
| Inf (neg : bool)
| NaN.

(** Nearest integer to [a / b], ties to even ([0 <= a], [0 < b]). *)
Definition rne (a b : Z) : Z :=
  let n := a / b in
  match 2 * (a mod b) ?= b with
  | Lt => n
  | Gt => n + 1
  | Eq => if Z.even n then n else n + 1
  end.

(** [p / q >= 2^k], for [0 < p], [0 < q]. *)
Definition ge_pow2 (p q k : Z) : bool :=
  if 0 <=? k then q * 2 ^ k <=? p else q <=? p * 2 ^ (- k).

(** The binary64 value nearest to [p / q] ([0 <= p], [0 < q]), rounding
    ties to even, with subnormals and overflow to infinity. *)
Definition binary64 (neg : bool) (p q : Z) : pyfloat :=
  if p =? 0 then Finite neg 0 0 else
  let k := Z.log2 p - Z.log2 q in
  let lg := if ge_pow2 p q k then k else k - 1 in
  let e := Z.max (lg - 52) (-1074) in
  let m := if 0 <=? e then rne p (q * 2 ^ e) else rne (p * 2 ^ (- e)) q in
  if (0 <=? e) && (2 ^ 1024 <=? m * 2 ^ e) then Inf neg else Finite neg m e.

Definition lower (c : ascii) : ascii :=
  let n := nat_of_ascii c in
  if Nat.leb 65 n && Nat.leb n 90 then ascii_of_nat (n + 32) else c.

Definition is_word (s : list ascii) (w : string) : bool :=
  String.eqb (string_of_list_ascii (map lower s)) w.

(** An optional exponent [("e" | "E") [sign] digitpart]; the unread input
    is returned with its value. *)
Definition exponent (s : list ascii) : option (Z * list ascii) :=
  match s with
  | c :: s' =>
      if is_char (lower c) "e" then
        let (neg, s1) := sign s' in
        match digitpart s1 0 0 with
        | Some (x, _, rest) => Some (apply_sign neg x, rest)
        | None => None
        end
      else Some (0, s)
  | [] => Some (0, [])
  end.

(** The digits of [[digitpart] "." digitpart | digitpart ["."]]: the
    integer that the digits spell, and how many of them follow the dot. *)
Definition number (s : list ascii) : option (Z * Z * list ascii) :=
  match s with
  | c :: s' =>
      if is_char c "." then digitpart s' 0 0
      else
        match digitpart s 0 0 with
        | Some (n, _, d :: rest) =>
            if is_char d "." then
              match digitpart rest n 0 with
              | Some r => Some r
              | None => Some (n, 0, rest)
              end
            else Some (n, 0, d :: rest)
        | Some (n, _, []) => Some (n, 0, [])
        | None => None
        end
  | [] => None
  end.

(** Python's [float(s)] for a text [s]. *)
Definition py_float (s : string) : result pyfloat :=
  let (neg, s1) := sign (strip (chars s)) in
  if is_word s1 "inf" || is_word s1 "infinity" then Ok (Inf neg)
  else if is_word s1 "nan" then Ok NaN
  else
    match number s1 with
    | Some (n, k, s2) =>
        match exponent s2 with
        | Some (x, []) =>
            let e10 := x - k in
            Ok (if 0 <=? e10 then binary64 neg (n * 10 ^ e10) 1
                else binary64 neg n (10 ^ (- e10)))
        | _ => Raise ValueError
        end
    | None => Raise ValueError
    end.

(** Python's [int(x)] for a float [x]: truncation towards zero. *)
Definition int_of_float (x : pyfloat) : result Z :=
  match x with
  | Finite neg m e =>
      Ok (apply_sign neg (if 0 <=? e then m * 2 ^ e else m / 2 ^ (- e)))
  | Inf _ => Raise OverflowError
  | NaN => Raise ValueError
  end.

(** [int(float(s))]. *)
Definition int_float (s : string) : result Z :=
  match py_float s with
  | Ok x => int_of_float x
  | Raise e => Raise e
  end.

End Text.

(** ** The Redis store

    The part of the server that the aggregator uses, after the Redis command
    reference and the [redis-py] client: a key holds a string, a set, a hash
    or a sorted set, and a command on a key that holds another kind of value
    is answered with a WRONGTYPE error.  With [decode_responses=True] the
    client returns texts.  The server keeps a score as a binary64 float and a
    counter as a signed 64-bit integer; the integers of this program
    (Unix-epoch seconds, event counts) are held exactly by both, and the
    model takes scores and counters as integers. *)

Module Redis.

Inductive rvalue :=
| RString (s : string)
| RSet (m : gset string)
| RHash (h : gmap string string)
| RZSet (z : gmap string Z).         (* member -> score *)

Definition wrongtype : exn :=
  ResponseError "WRONGTYPE Operation against a key holding the wrong kind of value".
Definition not_integer : exn :=
  ResponseError "ERR value is not an integer or out of range".

(** A call on the store: the store after the call and what the call
    returns or raises. *)
Definition call (A : Type) : Type := gmap string rvalue -> gmap string rvalue * result A.

Definition ret {A} (a : A) : call A := fun db => (db, Ok a).
Definition bind {A B} (c : call A) (f : A -> call B) : call B :=
  fun db =>
    match c db with
    | (db', Ok a) => f a db'
    | (db', Raise e) => (db', Raise e)
    end.

Definition count_if (b : bool) : Z := if b then 1 else 0.

(** Every command used here works on the value of one key: [f] maps what
    the key holds ([None] if the key is absent) to what it holds afterwards
    and to the reply.  A command that fails leaves the key as it was. *)
Definition on_key {A} (key : string)
    (f : option rvalue -> option rvalue * result A) : call A :=
  fun db => let (o, r) := f (db !! key) in (partial_alter (fun _ => o) key db, r).

Definition sadd_at (member : string) (o : option rvalue) : option rvalue * result Z :=
  match o with
  | None => (Some (RSet {[member]}), Ok 1)
  | Some (RSet m) =>
      (Some (RSet ({[member]} ∪ m)), Ok (count_if (bool_decide (member ∉ m))))
  | Some _ => (o, Raise wrongtype)
  end.

Definition hset_at (field value : string) (o : option rvalue)
  : option rvalue * result Z :=
  match o with
  | None => (Some (RHash {[field := value]}), Ok 1)
  | Some (RHash h) =>
      (Some (RHash (<[field := value]> h)),
       Ok (count_if (bool_decide (h !! field = None))))
  | Some _ => (o, Raise wrongtype)
  end.

Definition incr_at (o : option rvalue) : option rvalue * result Z :=
  match o with
  | None => (Some (RString (Text.str 1)), Ok 1)
  | Some (RString s) =>
      match Text.redis_int s with
      | Some n => (Some (RString (Text.str (n + 1))), Ok (n + 1))
      | None => (o, Raise not_integer)
      end
  | Some _ => (o, Raise wrongtype)
  end.

Definition zadd_at (member : string) (score : Z) (o : option rvalue)
  : option rvalue * result Z :=
  match o with
  | None => (Some (RZSet {[member := score]}), Ok 1)
  | Some (RZSet z) =>
      (Some (RZSet (<[member := score]> z)),
       Ok (count_if (bool_decide (z !! member = None))))
  | Some _ => (o, Raise wrongtype)
  end.

(** [ZREMRANGEBYSCORE key -inf max]: both ends of a score range are
    inclusive, so the members left are those with a score above [max]; a
    sorted set left empty is deleted with its key. *)
Definition zremrangebyscore_at (max : Z) (o : option rvalue)
  : option rvalue * result Z :=
  match o with
  | None => (None, Ok 0)
  | Some (RZSet z) =>
      let keep := filter (fun e => max < e.2) z in
      ((if bool_decide (keep = ∅) then None else Some (RZSet keep)),
       Ok (Z.of_nat (size z) - Z.of_nat (size keep)))
  | Some _ => (o, Raise wrongtype)
  end.

Definition scard_at (o : option rvalue) : option rvalue * result Z :=
  match o with
  | None => (o, Ok 0)
  | Some (RSet m) => (o, Ok (Z.of_nat (size m)))
  | Some _ => (o, Raise wrongtype)
  end.

Definition get_at (o : option rvalue) : option rvalue * result (option string) :=
  match o with
  | None => (o, Ok None)
  | Some (RString s) => (o, Ok (Some s))
  | Some _ => (o, Raise wrongtype)
  end.

(** [ZCOUNT key min max], both ends inclusive. *)
Definition zcount_at (min max : Z) (o : option rvalue) : option rvalue * result Z :=
  match o with
  | None => (o, Ok 0)
  | Some (RZSet z) =>
      (o, Ok (Z.of_nat (size (filter (fun e => min <= e.2 <= max) z))))
  | Some _ => (o, Raise wrongtype)
  end.

Definition hgetall_at (o : option rvalue)
  : option rvalue * result (gmap string string) :=
  match o with
  | None => (o, Ok ∅)
  | Some (RHash h) => (o, Ok h)
  | Some _ => (o, Raise wrongtype)
  end.

Definition sadd (key member : string) : call Z := on_key key (sadd_at member).
Definition hset (key field value : string) : call Z :=
  on_key key (hset_at field value).
Definition incr (key : string) : call Z := on_key key incr_at.
Definition zadd (key member : string) (score : Z) : call Z :=
  on_key key (zadd_at member score).
Definition zremrangebyscore_upto (key : string) (max : Z) : call Z :=
  on_key key (zremrangebyscore_at max).
Definition scard (key : string) : call Z := on_key key scard_at.
Definition get (key : string) : call (option string) := on_key key get_at.
Definition zcount (key : string) (min max : Z) : call Z :=
  on_key key (zcount_at min max).
Definition hgetall (key : string) : call (gmap string string) :=
  on_key key hgetall_at.

(** A value computed without the store. *)
Definition lift {A} (r : result A) : call A := fun db => (db, r).

(** *** Pipelines without a transaction

    [pipeline(transaction=False)] queues commands; [execute] sends them in
    one batch, the server runs every one of them in order, each on its own,
    and the client then raises the first error reply, if there is one. *)
Inductive command :=
| SADD (key member : string)
| HSET (key field value : string)
| INCR (key : string)
| ZADD (key member : string) (score : Z).

Definition run (c : command) : call Z :=
  match c with
  | SADD k m => sadd k m
  | HSET k f v => hset k f v
  | INCR k => incr k
  | ZADD k m sc => zadd k m sc
  end.

Fixpoint run_all (cs : list command) (db : gmap string rvalue)
  : gmap string rvalue * list (result Z) :=
  match cs with
  | [] => (db, [])
  | c :: cs' =>
      let (db1, r) := run c db in
      let (db2, rs) := run_all cs' db1 in
      (db2, r :: rs)
  end.

Fixpoint raise_first_error (rs : list (result Z)) : result (list Z) :=
  match rs with
  | [] => Ok []
  | Raise e :: _ => Raise e
  | Ok a :: rs' =>
      match raise_first_error rs' with
      | Ok l => Ok (a :: l)
      | Raise e => Raise e
      end
  end.

Definition execute (cs : list command) : call (list Z) := fun db =>
  let (db', rs) := run_all cs db in (db', raise_first_error rs).

End Redis.

#[export] Instance call_ret : MRet Redis.call := @Redis.ret.
#[export] Instance call_bind : MBind Redis.call := fun A B f c => Redis.bind c f.

(** ** The aggregator *)

Module Metrics.
Import Redis.

Definition k_users : string := "metrics:total_users".
Definition k_last : string := "metrics:last_seen".
Definition k_msgs : string := "metrics:msgs_total".
Definition k_cmds : string := "metrics:cmds_total".
Definition k_events : string := "metrics:events".

Definition note_message (chat_id : Z) (is_command : bool) (now : Z) : call unit :=
  let p :=
    [SADD k_users (Text.str chat_id);
     HSET k_last (Text.str chat_id) (Text.str now);
     INCR k_msgs;
     ZADD k_events (Text.str now) now]
    ++ (if is_command then [INCR k_cmds] else []) in
  _ ← execute p; mret tt.

Definition prune_events (before_ts : Z) : call unit :=
  _ ← zremrangebyscore_upto k_events before_ts; mret tt.

(** [int(x or 0)] for the reply [x] of a [GET]. *)
Definition int_or_0 (x : option string) : result Z :=
  match x with
  | None => Ok 0
  | Some EmptyString => Ok 0
  | Some s => Text.py_int s
  end.

(** One turn of the loop over the last-seen values: the [try] body with
    its [except Exception: continue]. *)
Definition scan_step (now : Z) (active_users_5m : Z) (ts : string) : Z :=
  match Text.int_float ts with
  | Ok v => if now - v <=? 300 then active_users_5m + 1 else active_users_5m
  | Raise _ => active_users_5m
  end.

(** [last_seen.values()]; the loop below counts, so the order of the values
    plays no part. *)
Definition values (h : gmap string string) : list string := (map_to_list h).*2.

Record snap := Snap {
  total_users : Z;
  msgs_total : Z;
  cmds_total : Z;
  rpm_1m : Z;
  active_users_5m : Z
}.

Definition snapshot (now : Z) : call snap :=
  _ ← prune_events (now - 600);
  total_users ← scard k_users;
  m ← get k_msgs;
  msgs_total ← lift (int_or_0 m);
  c ← get k_cmds;
  cmds_total ← lift (int_or_0 c);
  rpm_1m ← zcount k_events (now - 60) now;
  last_seen ← hgetall k_last;
  let active_users_5m := foldl (scan_step now) 0 (values last_seen) in
  mret (Snap total_users msgs_total cmds_total rpm_1m active_users_5m).

(** Calls in sequence, as one caller after another makes them. *)
Inductive op :=
| Record (chat_id : Z) (is_command : bool) (now : Z)
| Snapshot (now : Z).

Definition step (o : op) (db : gmap string rvalue) : gmap string rvalue :=
  match o with
  | Record c b t => fst (note_message c b t db)
  | Snapshot t => fst (snapshot t db)
  end.

Definition run_ops (ops : list op) (db : gmap string rvalue) : gmap string rvalue :=
  foldl (fun db o => step o db) db ops.

(** Whether a call returns normally, and whether every call of a sequence
    does. *)
Definition returns (o : op) (db : gmap string rvalue) : bool :=
  match o with
  | Record c b t => is_ok (snd (note_message c b t db))
  | Snapshot t => is_ok (snd (snapshot t db))
  end.

Fixpoint all_return (ops : list op) (db : gmap string rvalue) : bool :=
  match ops with
  | [] => true
  | o :: ops' => returns o db && all_return ops' (step o db)
  end.

End Metrics.

(** ** Reading the store

    What the five keys hold, read the way [snapshot] reads them, and the
    shape of a store that only [note_message] and [snapshot] have written. *)

Module View.
Import Redis Metrics.

#[export] Instance result_ret : MRet result := @Ok.
#[export] Instance result_bind : MBind result := fun A B f r =>
  match r with Ok a => f a | Raise e => Raise e end.

(** The queries of [snapshot] that follow its prune, on what the five
    keys hold. *)
Definition reads (now : Z) (u m c e l : option rvalue) : result snap :=
  total_users ← (scard_at u).2;
  m ← (get_at m).2;
  msgs_total ← int_or_0 m;
  c ← (get_at c).2;
  cmds_total ← int_or_0 c;
  rpm_1m ← (zcount_at (now - 60) now e).2;
  last_seen ← (hgetall_at l).2;
  mret (Snap total_users msgs_total cmds_total rpm_1m
          (foldl (scan_step now) 0 (values last_seen))).

Definition set_of (o : option rvalue) : gset string :=
  match o with Some (RSet m) => m | _ => ∅ end.
Definition hash_of (o : option rvalue) : gmap string string :=
  match o with Some (RHash h) => h | _ => ∅ end.
Definition zset_of (o : option rvalue) : gmap string Z :=
  match o with Some (RZSet z) => z | _ => ∅ end.
Definition counter_of (o : option rvalue) : Z :=
  match o with
  | Some (RString s) => default 0 (Text.redis_int s)
  | _ => 0
  end.

Definition is_set (o : option rvalue) : Prop :=
  match o with None | Some (RSet _) => True | _ => False end.
Definition is_hash (o : option rvalue) : Prop :=
  match o with None | Some (RHash _) => True | _ => False end.
Definition is_zset (o : option rvalue) : Prop :=
  match o with None | Some (RZSet _) => True | _ => False end.
Definition is_counter (o : option rvalue) : Prop :=
  match o with
  | None => True
  | Some (RString s) => ∃ n, s = Text.str n
  | _ => False
  end.

Record well_typed (db : gmap string rvalue) : Prop := WellTyped {
  wt_users : is_set (db !! k_users);
  wt_last : is_hash (db !! k_last);
  wt_msgs : is_counter (db !! k_msgs);
  wt_cmds : is_counter (db !! k_cmds);
  wt_events : is_zset (db !! k_events)
}.

(** The key a command works on. *)
Definition key_of (c : command) : string :=
  match c with
  | SADD k _ | HSET k _ _ | INCR k | ZADD k _ _ => k
  end.

Definition cmd_at (c : command) : option rvalue -> option rvalue * result Z :=
  match c with
  | SADD _ m => sadd_at m
  | HSET _ f v => hset_at f v
  | INCR _ => incr_at
  | ZADD _ m sc => zadd_at m sc
  end.

(** The commands that [note_message] queues. *)
Definition batch (chat_id : Z) (is_command : bool) (now : Z) : list command :=
  [SADD k_users (Text.str chat_id);
   HSET k_last (Text.str chat_id) (Text.str now);
   INCR k_msgs;
   ZADD k_events (Text.str now) now]
  ++ (if is_command then [INCR k_cmds] else []).

(** The test of the loop body of [snapshot] on one last-seen value. *)
Definition within_5m (now : Z) (ts : string) : Prop :=
  ∃ v, Text.int_float ts = Ok v ∧ now - v <= 300.

#[export] Instance within_5m_dec now ts : Decision (within_5m now ts).
Proof.
  unfold within_5m. destruct (Text.int_float ts) as [v|e].
  - destruct (decide (now - v <= 300)) as [H|H].
    + left. by exists v.
    + right. intros (v' & Hv & Hle). by simplify_eq.
  - right. by intros (v' & Hv & _).
Defined.

(** The [record] calls among a sequence of calls, the notable ones among
    them, and the subjects they name. *)
Definition records (ops : list op) : list (Z * bool * Z) :=
  omap (fun o => match o with
                 | Record c b t => Some (c, b, t)
                 | Snapshot _ => None
                 end) ops.
Definition notable (ops : list op) : list (Z * bool * Z) :=
  filter (fun r : Z * bool * Z => r.1.2 = true) (records ops).
Definition subjects (ops : list op) : list Z :=
  (fun r : Z * bool * Z => r.1.1) <$> records ops.

Definition is_record (o : op) : bool :=
  match o with Record _ _ _ => true | Snapshot _ => false end.
Definition is_notable_record (o : op) : bool :=
  match o with Record _ b _ => b | Snapshot _ => false end.

(** Every member of the index is the decimal text of its own score. *)
Definition keyed_by_second (z : gmap string Z) : Prop :=
  ∀ m sc, z !! m = Some sc → m = Text.str sc.

End View.

(** ** What a sequence of calls has recorded

    The call sequences of [run_ops] read as a specification: what the store
    should hold after them. *)

Module Trace.
Import Redis Metrics View.

(** The last timestamp recorded for each subject. *)
Definition last_seen (ops : list op) : gmap Z Z :=
  foldl (fun m o => match o with
                    | Record c _ t => <[c := t]> m
                    | Snapshot _ => m
                    end) ∅ ops.

(** The seconds recorded and not removed by a later snapshot. *)
Definition seconds (ops : list op) : gset Z :=
  foldl (fun S o => match o with
                    | Record _ _ t => {[t]} ∪ S
                    | Snapshot now => filter (fun t => now - 600 < t) S
                    end) ∅ ops.

(** The integers that a binary64 float holds exactly. *)
Definition exact (t : Z) : Prop := - 2 ^ 53 <= t <= 2 ^ 53.

End Trace.

(** ** Texts of messages

    The text of a Telegram message is a Python [str] of any characters: a
    list of Unicode code points. *)

Module Str.

Definition text := list N.

Definition of_string (s : string) : text := N_of_ascii <$> list_ascii_of_string s.

(** The line feed that ["\n"] denotes. *)
Definition nl : text := [10%N].

(** [c.isspace()]: the white space that [strip] and [rstrip] remove. *)
Definition isspace (c : N) : bool :=
  ((0x09 <=? c) && (c <=? 0x0D) || (0x1C <=? c) && (c <=? 0x20)
   || (c =? 0x85) || (c =? 0xA0) || (c =? 0x1680)
   || (0x2000 <=? c) && (c <=? 0x200A)
   || (c =? 0x2028) || (c =? 0x2029) || (c =? 0x202F) || (c =? 0x205F)
   || (c =? 0x3000))%N.

Fixpoint lstrip (s : text) : text :=
  match s with
  | c :: s' => if isspace c then lstrip s' else s
  | [] => []
  end.

Definition rstrip (s : text) : text := rev (lstrip (rev s)).

Definition strip (s : text) : text := rstrip (lstrip s).

Fixpoint startswith {A} `{EqDecision A} (s prefix : list A) : bool :=
  match prefix, s with
  | [], _ => true
  | a :: prefix', b :: s' => bool_decide (a = b) && startswith s' prefix'
  | _ :: _, [] => false
  end.

Definition endswith {A} `{EqDecision A} (s suffix : list A) : bool :=
  startswith (rev s) (rev suffix).

(** [sub in s]. *)
Fixpoint contains {A} `{EqDecision A} (s sub : list A) : bool :=
  startswith s sub || match s with _ :: s' => contains s' sub | [] => false end.

(** The characters of a decimal text: the digits and the minus sign. *)
Definition numeric (c : N) : bool := ((c =? 45) || (48 <=? c) && (c <=? 57))%N.

End Str.

(** ** The handlers of the bot and of the scrape endpoint

    A handler works on the Redis store through the aggregator, on the
    gauges of the Prometheus registry, and on the Bot API, to which it sends
    requests.  How the Bot API answers is not the program's matter: [api]
    gives, for the requests sent so far and the request made now, what the
    request raises, if anything.  Handlers run one after the other. *)

Module Bot.
Import Redis Metrics.

(** What a call may raise.  [TelegramBadRequest] carries the text that
    [str(e)] gives; [OtherError] is any other exception, with whether its
    class derives from [Exception] (a cancellation does not). *)
Inductive raised :=
| Builtin (e : exn)
| RuntimeError (msg : string)
| AttributeError
| TelegramBadRequest (description : string)
| OtherError (is_exception : bool).

Definition is_exception (e : raised) : bool :=
  match e with OtherError b => b | _ => true end.

Inductive outcome (A : Type) :=
| Done (a : A)
| Raised (e : raised).
Arguments Done {A} a.
Arguments Raised {A} e.

Record button := Button { button_text : Str.text; callback_data : string }.

Definition markup := list (list button).

Inductive request :=
| SendMessage (chat_id : Z) (text : Str.text) (reply_markup : option markup)
| EditMessageText (text : Str.text) (reply_markup : option markup)
| EditMessageReplyMarkup (reply_markup : option markup)
| AnswerCallbackQuery (text : Str.text).

(** The five gauges; a gauge holds a float. *)
Record registry := Registry {
  G_MSGS : Text.pyfloat;
  G_CMDS : Text.pyfloat;
  G_USERS : Text.pyfloat;
  G_ACTIVE5 : Text.pyfloat;
  G_RPM1 : Text.pyfloat
}.

Record world := World {
  store : gmap string rvalue;
  gauges : registry;
  sent : list request
}.

Definition io (A : Type) : Type := world -> world * outcome A.

Definition io_ret {A} (a : A) : io A := fun w => (w, Done a).
Definition io_bind {A B} (c : io A) (f : A -> io B) : io B :=
  fun w =>
    match c w with
    | (w', Done a) => f a w'
    | (w', Raised e) => (w', Raised e)
    end.

Definition raise {A} (e : raised) : io A := fun w => (w, Raised e).

#[export] Instance io_mret : MRet io := @io_ret.
#[export] Instance io_mbind : MBind io := fun A B f c => io_bind c f.

(** [try: body except ...: handler]: [handler e] is the clause that catches
    [e], if one does. *)
Definition try_except {A} (body : io A) (handler : raised -> option (io A)) : io A :=
  fun w =>
    match body w with
    | (w', Raised e) =>
        match handler e with
        | Some h => h w'
        | None => (w', Raised e)
        end
    | r => r
    end.

(** A part of a handler that leaves the store alone. *)
Definition keeps_store {A} (c : io A) : Prop := ∀ w, store (c w).1 = store w.

(** A call of the aggregator. *)
Definition metrics {A} (c : call A) : io A :=
  fun w =>
    let (db, r) := c (store w) in
    (World db (gauges w) (sent w),
     match r with Ok a => Done a | Raise e => Raised (Builtin e) end).

(** Python's [float(n)] for an integer [n]. *)
Definition float_of_int (n : Z) : result Text.pyfloat :=
  match Text.binary64 (n <? 0) (Z.abs n) 1 with
  | Text.Inf _ => Raise OverflowError
  | x => Ok x
  end.

(** [Gauge.set(value)] stores [float(value)]. *)
Definition gauge_set (update : Text.pyfloat -> registry -> registry) (value : Z)
  : io unit :=
  fun w =>
    match float_of_int value with
    | Ok x => (World (store w) (update x (gauges w)) (sent w), Done tt)
    | Raise e => (w, Raised (Builtin e))
    end.

(** What the registry holds, which [generate_latest] renders. *)
Definition registered : io registry := fun w => (w, Done (gauges w)).

Definition set_G_MSGS (x : Text.pyfloat) (g : registry) : registry :=
  Registry x (G_CMDS g) (G_USERS g) (G_ACTIVE5 g) (G_RPM1 g).
Definition set_G_CMDS (x : Text.pyfloat) (g : registry) : registry :=
  Registry (G_MSGS g) x (G_USERS g) (G_ACTIVE5 g) (G_RPM1 g).
Definition set_G_USERS (x : Text.pyfloat) (g : registry) : registry :=
  Registry (G_MSGS g) (G_CMDS g) x (G_ACTIVE5 g) (G_RPM1 g).
Definition set_G_ACTIVE5 (x : Text.pyfloat) (g : registry) : registry :=
  Registry (G_MSGS g) (G_CMDS g) (G_USERS g) x (G_RPM1 g).
Definition set_G_RPM1 (x : Text.pyfloat) (g : registry) : registry :=
  Registry (G_MSGS g) (G_CMDS g) (G_USERS g) (G_ACTIVE5 g) x.

Definition stats_keyboard : markup :=
  [[Button ([0x267B; 0xFE0F]%N ++ Str.of_string " Refresh") "stats:refresh";
    Button ([0x2716; 0xFE0F]%N ++ Str.of_string " Close") "stats:close"]].

Definition format_stats (s : snap) : Str.text :=
  [0x1F4CA%N] ++ Str.of_string " Live Stats" ++ Str.nl
  ++ [0x1F465%N] ++ Str.of_string " Total users: "
  ++ Str.of_string (Text.str (total_users s)) ++ Str.nl
  ++ [0x1F525%N] ++ Str.of_string " Active (5m): "
  ++ Str.of_string (Text.str (active_users_5m s)) ++ Str.nl
  ++ [0x1F4AC%N] ++ Str.of_string " Messages: "
  ++ Str.of_string (Text.str (msgs_total s)) ++ Str.nl
  ++ [0x2328; 0xFE0F]%N ++ Str.of_string " Commands: "
  ++ Str.of_string (Text.str (cmds_total s)) ++ Str.nl
  ++ [0x26A1%N] ++ Str.of_string " RPM(1m): "
  ++ Str.of_string (Text.str (rpm_1m s)).

(** A message, as far as the handlers read it: [m.chat.id] and [m.text]. *)
Record Message := mk_Message { chat_id : Z; text : option Str.text }.

(** A callback query, as far as the handlers read it: [cb.message], which
    may be missing. *)
Record CallbackQuery := mk_CallbackQuery { message : option Message }.

(** ["message is not modified" in str(e).lower()]. *)
Definition not_modified (description : string) : bool :=
  Str.contains (Text.lower <$> Text.chars description)
    (Text.chars "message is not modified").

(** The text that [cb_close] puts in place of the text of the message. *)
Definition closed_text (t : option Str.text) : Str.text :=
  let text := Str.rstrip (default [] t) in
  if negb (Str.endswith text (Str.of_string "(closed)"))
  then Str.strip (text ++ Str.of_string " (closed)")
  else text.

(** [bool(m.text and m.text.startswith("/"))]. *)
Definition is_cmd (m : Message) : bool :=
  match text m with
  | Some (c :: t) => Str.startswith (c :: t) (Str.of_string "/")
  | _ => false
  end.

(** The updates and scrapes that reach the handlers, each with the clock
    reading [int(time.time())] of its handler. *)
Inductive update :=
| Start (m : Message) (now : Z)
| Stats (m : Message) (now : Z)
| AnyMessage (m : Message) (now : Z)
| Refresh (cb : CallbackQuery) (now : Z)
| Close (cb : CallbackQuery)
| Scrape (now : Z).

Section handlers.

Variable api : list request -> request -> option raised.

(** A request to the Bot API. *)
Definition send (rq : request) : io unit :=
  fun w =>
    (World (store w) (gauges w) (sent w ++ [rq]),
     match api (sent w) rq with
     | None => Done tt
     | Some e => Raised e
     end).

Definition metrics_handler (now : Z) : io registry :=
  snap ← metrics (snapshot now);
  _ ← gauge_set set_G_MSGS (msgs_total snap);
  _ ← gauge_set set_G_CMDS (cmds_total snap);
  _ ← gauge_set set_G_USERS (total_users snap);
  _ ← gauge_set set_G_ACTIVE5 (active_users_5m snap);
  _ ← gauge_set set_G_RPM1 (rpm_1m snap);
  registered.

Definition cmd_start (m : Message) (now : Z) : io unit :=
  _ ← metrics (note_message (chat_id m) true now);
  send (SendMessage (chat_id m)
          (Str.of_string "Hello! I track live usage stats." ++ Str.nl
           ++ Str.of_string "Use /stats to view them.") None).

Definition cmd_stats (m : Message) (now : Z) : io unit :=
  _ ← metrics (note_message (chat_id m) true now);
  snap ← metrics (snapshot now);
  send (SendMessage (chat_id m) (format_stats snap) (Some stats_keyboard)).

Definition any_message (m : Message) (now : Z) : io unit :=
  metrics (note_message (chat_id m) (is_cmd m) now).

Definition cb_refresh (cb : CallbackQuery) (now : Z) : io unit :=
  snap ← metrics (snapshot now);
  _ ← try_except
        (match message cb with
         | Some _ =>
             send (EditMessageText (format_stats snap) (Some stats_keyboard))
         | None => raise AttributeError
         end)
        (fun e =>
           match e with
           | TelegramBadRequest d =>
               Some (if negb (not_modified d) then raise e else mret tt)
           | _ => None
           end);
  send (AnswerCallbackQuery (Str.of_string "Updated")).

Definition cb_close (cb : CallbackQuery) : io unit :=
  _ ← try_except
        (match message cb with
         | Some m => send (EditMessageText (closed_text (text m)) None)
         | None => raise AttributeError
         end)
        (fun e =>
           match e with
           | TelegramBadRequest d =>
               Some (if negb (not_modified d)
                     then try_except (send (EditMessageReplyMarkup None))
                            (fun e' => if is_exception e' then Some (mret tt)
                                       else None)
                     else mret tt)
           | _ => None
           end);
  send (AnswerCallbackQuery (Str.of_string "Closed")).

Definition handle (u : update) : io unit :=
  match u with
  | Start m now => cmd_start m now
  | Stats m now => cmd_stats m now
  | AnyMessage m now => any_message m now
  | Refresh cb now => cb_refresh cb now
  | Close cb => cb_close cb
  | Scrape now => _ ← metrics_handler now; mret tt
  end.

(** The world after a run of updates; what a handler raises is logged by
    its caller and the next update is handled. *)
Definition handle_all (us : list update) (w : world) : world :=
  foldl (fun w u => (handle u w).1) w us.

End handlers.

(** The calls of the aggregator that the handler of an update makes, if
    none of them raises. *)
Definition calls_of (u : update) : list op :=
  match u with
  | Start m now => [Record (chat_id m) true now]
  | Stats m now => [Record (chat_id m) true now; Snapshot now]
  | AnyMessage m now => [Record (chat_id m) (is_cmd m) now]
  | Refresh _ now => [Snapshot now]
  | Close _ => []
  | Scrape now => [Snapshot now]
  end.

(** *** Configuration from the environment *)





End Bot.

(** * Properties *)

(** ** Decimal texts *)

Module TextFacts.
Import Text.

Lemma digits_tail_pos d (acc : positive) k :
  ∃ k', digits_tail (chars (NilEmpty.string_of_uint d)) (Z.pos acc) k
        = (Z.pos (Pos.of_uint_acc d acc), k', []).
Proof.
  revert acc k. induction d; intros acc k; simpl; eauto;
    match goal with
    | |- context [Pos.of_uint_acc d ?a] => destruct (IHd a (k + 1)) as [k' E]
    end; exists k'; rewrite <- E; f_equal;
    match goal with
    | |- context [nat_of_ascii ?c] =>
        let v := eval vm_compute in (nat_of_ascii c) in
        change (nat_of_ascii c) with v
    end; lia.
Qed.

Lemma digits_tail_zero d k :
  ∃ k', digits_tail (chars (NilEmpty.string_of_uint d)) 0 k
        = (Z.of_N (Pos.of_uint d), k', []).
Proof.
  revert k. induction d; intros k; simpl; eauto;
    apply (digits_tail_pos d _ (k + 1)).
Qed.

Lemma digitpart_uint d :
  d ≠ Decimal.Nil →
  ∃ k, digitpart (chars (NilEmpty.string_of_uint d)) 0 0
       = Some (Z.of_N (Pos.of_uint d), k, []).
Proof.
  destruct d; intros Hd; try done; simpl;
    [ destruct (digits_tail_zero d (0 + 1)) as [k' E]
    | destruct (digits_tail_pos d 1 (0 + 1)) as [k' E]
    | destruct (digits_tail_pos d 2 (0 + 1)) as [k' E]
    | destruct (digits_tail_pos d 3 (0 + 1)) as [k' E]
    | destruct (digits_tail_pos d 4 (0 + 1)) as [k' E]
    | destruct (digits_tail_pos d 5 (0 + 1)) as [k' E]
    | destruct (digits_tail_pos d 6 (0 + 1)) as [k' E]
    | destruct (digits_tail_pos d 7 (0 + 1)) as [k' E]
    | destruct (digits_tail_pos d 8 (0 + 1)) as [k' E]
    | destruct (digits_tail_pos d 9 (0 + 1)) as [k' E] ];
    exists k'; f_equal; exact E.
Qed.

Lemma sign_uint d :
  sign (chars (NilEmpty.string_of_uint d)) = (false, chars (NilEmpty.string_of_uint d)).
Proof. destruct d; reflexivity. Qed.

Lemma nospace_uint d :
  Forall (fun c => is_space c = false) (chars (NilEmpty.string_of_uint d)).
Proof. induction d; simpl; constructor; done. Qed.

Lemma lstrip_nospace l :
  Forall (fun c => is_space c = false) l → lstrip l = l.
Proof. destruct 1 as [|c l Hc _]; simpl; [done | by rewrite Hc]. Qed.

Lemma strip_nospace l :
  Forall (fun c => is_space c = false) l → strip l = l.
Proof.
  intros H. unfold strip. rewrite (lstrip_nospace l H).
  rewrite lstrip_nospace; [apply rev_involutive | by apply List.Forall_rev].
Qed.

(** Python reads back the integer that a decimal text was printed from. *)
Lemma py_int_str n : py_int (str n) = Ok n.
Proof.
  destruct n as [|p|p]; [reflexivity | |]; unfold py_int, str; simpl Z.to_int;
    simpl NilEmpty.string_of_int.
  - rewrite strip_nospace by apply nospace_uint. rewrite sign_uint.
    destruct (digitpart_uint (Pos.to_uint p)) as [k E];
      [apply DecimalPos.Unsigned.to_uint_nonnil |].
    rewrite E, DecimalPos.Unsigned.of_to. reflexivity.
  - change (chars (String "-" ?s)) with ("-"%char :: chars s).
    rewrite strip_nospace by (constructor; [done | apply nospace_uint]).
    simpl sign.
    destruct (digitpart_uint (Pos.to_uint p)) as [k E];
      [apply DecimalPos.Unsigned.to_uint_nonnil |].
    rewrite E, DecimalPos.Unsigned.of_to. reflexivity.
Qed.

Lemma str_inj a b : str a = str b → a = b.
Proof.
  intros H. pose proof (py_int_str a) as Ha. rewrite H, py_int_str in Ha.
  congruence.
Qed.

#[export] Instance str_Inj : Inj (=) (=) str.
Proof. intros a b. apply str_inj. Qed.

Lemma redis_int_str n : redis_int (str n) = Some n.
Proof. unfold redis_int. by rewrite py_int_str, String.eqb_refl. Qed.

Lemma str_nonempty n : str n ≠ EmptyString.
Proof.
  intros H. pose proof (py_int_str n) as Hn. rewrite H in Hn. discriminate.
Qed.

(** *** Decimal texts read through [float] *)

Lemma rne_one a : rne a 1 = a.
Proof.
  unfold rne. rewrite Z.mod_1_r, Z.div_1_r. reflexivity.
Qed.

Lemma binary64_exact neg p :
  0 <= p <= 2 ^ 53 →
  int_of_float (binary64 neg p 1) = Ok (apply_sign neg p).
Proof.
  intros Hp. unfold binary64.
  destruct (Z.eqb_spec p 0) as [->|Hp0]; [by destruct neg|].
  change (Z.log2 1) with 0. rewrite Z.sub_0_r.
  assert (0 < p) as Hpos by lia.
  pose proof (Z.log2_spec p Hpos) as [Hlo Hhi].
  pose proof (Z.log2_nonneg p) as Hk.
  assert (Z.log2 p <= 53) as Hk53.
  { destruct (Z.le_gt_cases (Z.log2 p) 53) as [|Hgt]; [done|].
    assert (2 ^ 54 <= 2 ^ Z.log2 p) by (apply Z.pow_le_mono_r; lia). lia. }
  unfold ge_pow2. rewrite (proj2 (Z.leb_le 0 (Z.log2 p)) Hk).
  rewrite Z.mul_1_l, (proj2 (Z.leb_le _ _) Hlo).
  destruct (Z.le_gt_cases 0 (Z.log2 p - 52)) as [He|He].
  - rewrite Z.max_l by lia. rewrite (proj2 (Z.leb_le _ _) He). simpl andb.
    assert (Z.log2 p = 52 ∨ Z.log2 p = 53) as [E|E] by lia; rewrite E in *.
    + change (52 - 52) with 0. change (2 ^ 0) with 1. rewrite rne_one.
      rewrite Z.mul_1_r.
      destruct (Z.leb_spec (2 ^ 1024) p) as [Hbig|_].
      { assert (2 ^ 53 < 2 ^ 1024) by (apply Z.pow_lt_mono_r; lia). lia. }
      simpl. by rewrite Z.mul_1_r.
    + assert (p = 2 ^ 53) as -> by (change (2 ^ Z.succ 53) with (2 * 2 ^ 53) in Hhi; lia).
      by vm_compute.
  - rewrite Z.max_l by lia.
    rewrite (proj2 (Z.leb_gt _ _) He). simpl andb. cbv iota.
    rewrite rne_one. unfold int_of_float.
    rewrite (proj2 (Z.leb_gt _ _) He).
    rewrite Z.div_mul; [done|]. apply Z.pow_nonzero; lia.
Qed.

Lemma is_word_uint d w :
  (w = "inf" ∨ w = "infinity" ∨ w = "nan")%string →
  is_word (chars (NilEmpty.string_of_uint d)) w = false.
Proof. intros [->|[->| ->]]; destruct d; reflexivity. Qed.

Lemma number_uint d :
  d ≠ Decimal.Nil →
  number (chars (NilEmpty.string_of_uint d)) = Some (Z.of_N (Pos.of_uint d), 0, []).
Proof.
  intros Hd. destruct (digitpart_uint d Hd) as [k E].
  unfold number. destruct d; try done;
    cbn [chars list_ascii_of_string NilEmpty.string_of_uint] in *;
    cbn [is_char Ascii.eqb Bool.eqb]; by rewrite E.
Qed.

Lemma float_body_uint (neg : bool) d :
  d ≠ Decimal.Nil →
  (if is_word (chars (NilEmpty.string_of_uint d)) "inf"
      || is_word (chars (NilEmpty.string_of_uint d)) "infinity"
   then Ok (Inf neg)
   else if is_word (chars (NilEmpty.string_of_uint d)) "nan" then Ok NaN
   else
     match number (chars (NilEmpty.string_of_uint d)) with
     | Some (n, k, s2) =>
         match exponent s2 with
         | Some (x, []) =>
             Ok (if 0 <=? x - k then binary64 neg (n * 10 ^ (x - k)) 1
                 else binary64 neg n (10 ^ (- (x - k))))
         | _ => Raise ValueError
         end
     | None => Raise ValueError
     end) = Ok (binary64 neg (Z.of_N (Pos.of_uint d)) 1).
Proof.
  intros Hd. rewrite !is_word_uint by auto. rewrite number_uint by done.
  simpl. by rewrite Z.mul_1_r.
Qed.

(** Up to [2^53] in magnitude, [int(float(s))] reads back the integer that
    a decimal text was printed from. *)
Lemma int_float_str n :
  - 2 ^ 53 <= n <= 2 ^ 53 → int_float (str n) = Ok n.
Proof.
  intros Hn. unfold int_float.
  destruct n as [|p|p]; [reflexivity | |]; unfold py_float, str; simpl Z.to_int;
    simpl NilEmpty.string_of_int.
  - rewrite strip_nospace by apply nospace_uint. rewrite sign_uint.
    cbv beta iota zeta.
    rewrite float_body_uint by apply DecimalPos.Unsigned.to_uint_nonnil.
    rewrite DecimalPos.Unsigned.of_to. apply (binary64_exact false). simpl. lia.
  - change (chars (String "-" ?s)) with ("-"%char :: chars s).
    rewrite strip_nospace by (constructor; [done | apply nospace_uint]).
    cbn [sign is_char Ascii.eqb Bool.eqb]. cbv beta iota zeta.
    rewrite float_body_uint by apply DecimalPos.Unsigned.to_uint_nonnil.
    rewrite DecimalPos.Unsigned.of_to. apply (binary64_exact true (Z.pos p)). simpl.
    lia.
Qed.

End TextFacts.

(** ** The store under the aggregator's calls *)

Module MetricsFacts.
Import Redis Metrics View TextFacts.

Ltac key_ne := unfold k_users, k_last, k_msgs, k_cmds, k_events; discriminate.

Section on_key.
Context {A : Type} (key : string) (f : option rvalue -> option rvalue * result A).

Lemma on_key_lookup db : (on_key key f db).1 !! key = (f (db !! key)).1.
Proof.
  unfold on_key. destruct (f (db !! key)) as [o r]; simpl.
  by rewrite lookup_partial_alter_eq.
Qed.

Lemma on_key_lookup_ne db k : k ≠ key → (on_key key f db).1 !! k = db !! k.
Proof.
  intros Hk. unfold on_key. destruct (f (db !! key)) as [o r]; simpl.
  by rewrite lookup_partial_alter_ne.
Qed.

Lemma on_key_result db : (on_key key f db).2 = (f (db !! key)).2.
Proof. unfold on_key. by destruct (f (db !! key)). Qed.

Lemma on_key_same db : (f (db !! key)).1 = db !! key → (on_key key f db).1 = db.
Proof.
  intros H. apply map_eq. intros k. destruct (decide (k = key)) as [->|Hk].
  - by rewrite on_key_lookup.
  - by rewrite on_key_lookup_ne.
Qed.
End on_key.

Lemma on_key_read {A} key (f : option rvalue → option rvalue * result A) db :
  (∀ o, (f o).1 = o) → on_key key f db = (db, (f (db !! key)).2).
Proof.
  intros Hf. rewrite (surjective_pairing (on_key key f db)).
  by rewrite on_key_same, on_key_result.
Qed.

Lemma prune_events_store b db :
  (prune_events b db).1 = (zremrangebyscore_upto k_events b db).1.
Proof.
  unfold prune_events, mbind, call_bind, bind.
  by destruct (zremrangebyscore_upto k_events b db) as [db1 [n|e]].
Qed.

Lemma prune_events_result b db :
  (prune_events b db).2 = (_ ← (zremrangebyscore_at b (db !! k_events)).2; Ok tt).
Proof.
  unfold prune_events, mbind at 1, call_bind, bind.
  rewrite <- (on_key_result k_events (zremrangebyscore_at b) db).
  fold (zremrangebyscore_upto k_events b).
  by destruct (zremrangebyscore_upto k_events b db) as [db1 [n|e]].
Qed.

Lemma prune_events_lookup b db :
  (prune_events b db).1 !! k_events = (zremrangebyscore_at b (db !! k_events)).1.
Proof. rewrite prune_events_store. apply on_key_lookup. Qed.

Lemma prune_events_lookup_ne b db k :
  k ≠ k_events → (prune_events b db).1 !! k = db !! k.
Proof. intros Hk. rewrite prune_events_store. by apply on_key_lookup_ne. Qed.

(** [snapshot] prunes, then reads the five keys of the pruned store. *)
Lemma snapshot_eq now db :
  let db1 := (prune_events (now - 600) db).1 in
  snapshot now db =
    (db1,
     _ ← (prune_events (now - 600) db).2;
     reads now (db1 !! k_users) (db1 !! k_msgs) (db1 !! k_cmds)
       (db1 !! k_events) (db1 !! k_last)).
Proof.
  unfold snapshot, reads, mbind, call_bind, result_bind, bind.
  destruct (prune_events (now - 600) db) as [db1 [[]|e]]; simpl; [|done].
  unfold scard, get, zcount, hgetall, lift.
  rewrite (on_key_read k_users scard_at) by (by intros [[]|]).
  destruct (scard_at (db1 !! k_users)).2 as [n|e]; [|done].
  rewrite (on_key_read k_msgs get_at) by (by intros [[]|]).
  destruct (get_at (db1 !! k_msgs)).2 as [m|e]; [|done].
  destruct (int_or_0 m) as [nm|e]; [|done].
  rewrite (on_key_read k_cmds get_at) by (by intros [[]|]).
  destruct (get_at (db1 !! k_cmds)).2 as [c|e]; [|done].
  destruct (int_or_0 c) as [nc|e]; [|done].
  rewrite (on_key_read k_events (zcount_at _ _)) by (by intros [[]|]).
  destruct (zcount_at (now - 60) now (db1 !! k_events)).2 as [r|e]; [|done].
  rewrite (on_key_read k_last hgetall_at) by (by intros [[]|]).
  by destruct (hgetall_at (db1 !! k_last)).2 as [h|e].
Qed.

(** *** Pipelines *)

Lemma run_on_key c : run c = on_key (key_of c) (cmd_at c).
Proof. by destruct c. Qed.

Lemma run_lookup c db : (run c db).1 !! key_of c = (cmd_at c (db !! key_of c)).1.
Proof. rewrite run_on_key. apply on_key_lookup. Qed.

Lemma run_lookup_ne c db k : k ≠ key_of c → (run c db).1 !! k = db !! k.
Proof. rewrite run_on_key. apply on_key_lookup_ne. Qed.

Lemma run_result c db : (run c db).2 = (cmd_at c (db !! key_of c)).2.
Proof. rewrite run_on_key. apply on_key_result. Qed.

Lemma cmd_at_fail c o e : (cmd_at c o).2 = Raise e → (cmd_at c o).1 = o.
Proof.
  destruct c; simpl; unfold sadd_at, hset_at, incr_at, zadd_at;
    repeat case_match; simpl; intros; by simplify_eq.
Qed.

Lemma run_fail c db e : (run c db).2 = Raise e → (run c db).1 = db.
Proof.
  rewrite run_on_key, on_key_result. intros H.
  apply on_key_same. by eapply cmd_at_fail.
Qed.

(** Commands on different keys do not see each other: in a batch, each
    command replies and writes as it would alone on the store at the
    start. *)
Lemma run_all_independent cs db :
  NoDup (key_of <$> cs) →
  (run_all cs db).2 = (λ c, (run c db).2) <$> cs
  ∧ (∀ c, c ∈ cs → (run_all cs db).1 !! key_of c = (run c db).1 !! key_of c)
  ∧ (∀ k, k ∉ key_of <$> cs → (run_all cs db).1 !! k = db !! k).
Proof.
  revert db. induction cs as [|c cs IH]; intros db Hnd; simpl.
  { split_and!; [done | by intros c ?%elem_of_nil | done]. }
  apply NoDup_cons in Hnd as [Hc Hnd].
  destruct (run c db) as [db1 r] eqn:Hrun.
  destruct (IH db1 Hnd) as (Hres & Hin & Hout).
  destruct (run_all cs db1) as [db2 rs]; simpl in *.
  assert (Hdb1 : ∀ k, k ≠ key_of c → db1 !! k = db !! k).
  { intros k Hk. rewrite <- (run_lookup_ne c db k Hk). by rewrite Hrun. }
  assert (Hcs : ∀ c', c' ∈ cs → key_of c' ≠ key_of c).
  { intros c' Hc' Heq. apply Hc. rewrite <- Heq. by apply list_elem_of_fmap_2. }
  split_and!.
  - f_equal. rewrite Hres. apply list_fmap_ext. intros i c' Hi.
    rewrite !run_result.
    by rewrite (Hdb1 _ (Hcs c' (list_elem_of_lookup_2 _ _ _ Hi))).
  - intros c' [->|Hc']%elem_of_cons.
    + by rewrite (Hout _ Hc), Hrun.
    + rewrite (Hin _ Hc'), !run_lookup. by rewrite (Hdb1 _ (Hcs c' Hc')).
  - intros k [Hk Hks]%not_elem_of_cons. rewrite (Hout _ Hks). by apply Hdb1.
Qed.

Lemma raise_first_error_ok rs :
  is_ok (raise_first_error rs) = forallb is_ok rs.
Proof.
  induction rs as [|[a|e] rs IH]; simpl; [done | | done].
  rewrite <- IH. by destruct (raise_first_error rs).
Qed.

Lemma forallb_fmap {A B} (f : B → bool) (g : A → B) l :
  forallb f (g <$> l) = forallb (λ x, f (g x)) l.
Proof. induction l as [|x l IH]; simpl; [done | f_equal; exact IH]. Qed.

Lemma batch_keys_NoDup c b t : NoDup (key_of <$> batch c b t).
Proof. destruct b; simpl; by apply (bool_decide_unpack _). Qed.

Lemma note_message_store c b t db :
  (note_message c b t db).1 = (run_all (batch c b t) db).1.
Proof.
  unfold note_message, execute, mbind, call_bind, bind. fold (batch c b t).
  destruct (run_all (batch c b t) db) as [db' rs]; simpl.
  by destruct (raise_first_error rs).
Qed.

Lemma note_message_result c b t db :
  is_ok (note_message c b t db).2 = forallb (λ cmd, is_ok (run cmd db).2) (batch c b t).
Proof.
  destruct (run_all_independent (batch c b t) db (batch_keys_NoDup c b t))
    as (Hres & _ & _).
  unfold note_message, execute, mbind, call_bind, bind. fold (batch c b t).
  destruct (run_all (batch c b t) db) as [db' rs]. cbn [snd] in Hres.
  rewrite <- (forallb_fmap is_ok (λ cmd, (run cmd db).2)), <- Hres.
  rewrite <- raise_first_error_ok.
  by destruct (raise_first_error rs).
Qed.

Lemma note_message_lookup c b t db cmd :
  cmd ∈ batch c b t →
  (note_message c b t db).1 !! key_of cmd = (cmd_at cmd (db !! key_of cmd)).1.
Proof.
  intros Hcmd. rewrite note_message_store.
  destruct (run_all_independent (batch c b t) db (batch_keys_NoDup c b t))
    as (_ & Hin & _).
  by rewrite (Hin _ Hcmd), run_lookup.
Qed.

Lemma note_message_lookup_ne c b t db k :
  k ∉ key_of <$> batch c b t → (note_message c b t db).1 !! k = db !! k.
Proof.
  intros Hk. rewrite note_message_store.
  destruct (run_all_independent (batch c b t) db (batch_keys_NoDup c b t))
    as (_ & _ & Hout).
  by apply Hout.
Qed.

Lemma note_message_users c b t db :
  (note_message c b t db).1 !! k_users = (sadd_at (Text.str c) (db !! k_users)).1.
Proof.
  apply (note_message_lookup c b t db (SADD k_users (Text.str c))).
  unfold batch. set_solver.
Qed.

Lemma note_message_last c b t db :
  (note_message c b t db).1 !! k_last
  = (hset_at (Text.str c) (Text.str t) (db !! k_last)).1.
Proof.
  apply (note_message_lookup c b t db (HSET k_last (Text.str c) (Text.str t))).
  unfold batch. set_solver.
Qed.

Lemma note_message_msgs c b t db :
  (note_message c b t db).1 !! k_msgs = (incr_at (db !! k_msgs)).1.
Proof.
  apply (note_message_lookup c b t db (INCR k_msgs)). unfold batch. set_solver.
Qed.

Lemma note_message_events c b t db :
  (note_message c b t db).1 !! k_events
  = (zadd_at (Text.str t) t (db !! k_events)).1.
Proof.
  apply (note_message_lookup c b t db (ZADD k_events (Text.str t) t)).
  unfold batch. set_solver.
Qed.

Lemma note_message_cmds c b t db :
  (note_message c b t db).1 !! k_cmds
  = if b then (incr_at (db !! k_cmds)).1 else db !! k_cmds.
Proof.
  destruct b.
  - apply (note_message_lookup c true t db (INCR k_cmds)). unfold batch. set_solver.
  - apply note_message_lookup_ne. simpl. by apply (bool_decide_unpack _).
Qed.

(** *** Stores that only the aggregator has written *)

Lemma sadd_at_typed m o :
  is_set o →
  (sadd_at m o).1 = Some (RSet ({[m]} ∪ set_of o)) ∧ is_ok (sadd_at m o).2 = true.
Proof.
  destruct o as [[]|]; simpl; try done. intros _. by rewrite (right_id_L ∅ (∪)).
Qed.

Lemma hset_at_typed f v o :
  is_hash o →
  (hset_at f v o).1 = Some (RHash (<[f := v]> (hash_of o)))
  ∧ is_ok (hset_at f v o).2 = true.
Proof. destruct o as [[]|]; simpl; try done. Qed.

Lemma incr_at_typed o :
  is_counter o →
  (incr_at o).1 = Some (RString (Text.str (counter_of o + 1)))
  ∧ is_ok (incr_at o).2 = true.
Proof.
  destruct o as [[]|]; simpl; try done. intros [n ->].
  by rewrite redis_int_str.
Qed.

Lemma zadd_at_typed m sc o :
  is_zset o →
  (zadd_at m sc o).1 = Some (RZSet (<[m := sc]> (zset_of o)))
  ∧ is_ok (zadd_at m sc o).2 = true.
Proof. destruct o as [[]|]; simpl; try done. Qed.

Lemma counter_of_str n : counter_of (Some (RString (Text.str n))) = n.
Proof. simpl. by rewrite redis_int_str. Qed.

Lemma is_counter_str n : is_counter (Some (RString (Text.str n))).
Proof. by exists n. Qed.

Lemma note_message_typed c b t db :
  well_typed db →
  let db' := (note_message c b t db).1 in
  (note_message c b t db).2 = Ok tt
  ∧ well_typed db'
  ∧ set_of (db' !! k_users) = {[Text.str c]} ∪ set_of (db !! k_users)
  ∧ hash_of (db' !! k_last) = <[Text.str c := Text.str t]> (hash_of (db !! k_last))
  ∧ counter_of (db' !! k_msgs) = counter_of (db !! k_msgs) + 1
  ∧ counter_of (db' !! k_cmds) = counter_of (db !! k_cmds) + count_if b
  ∧ zset_of (db' !! k_events) = <[Text.str t := t]> (zset_of (db !! k_events)).
Proof.
  intros [Hu Hl Hm Hc He]; simpl.
  destruct (sadd_at_typed (Text.str c) _ Hu) as [Eu Ou].
  destruct (hset_at_typed (Text.str c) (Text.str t) _ Hl) as [El Ol].
  destruct (incr_at_typed _ Hm) as [Em Om].
  destruct (incr_at_typed _ Hc) as [Ec Oc].
  destruct (zadd_at_typed (Text.str t) t _ He) as [Ee Oe].
  split_and!.
  - pose proof (note_message_result c b t db) as H.
    assert (forallb (λ cmd, is_ok (run cmd db).2) (batch c b t) = true) as Hall.
    { unfold batch. rewrite forallb_app. cbn [forallb].
      rewrite !run_result. cbn [key_of cmd_at]. rewrite Ou, Ol, Om, Oe.
      destruct b; cbn [forallb andb]; [|done].
      rewrite run_result. cbn [key_of cmd_at]. by rewrite Oc. }
    rewrite Hall in H. by destruct (note_message c b t db).2 as [[]|].
  - split.
    + by rewrite note_message_users, Eu.
    + by rewrite note_message_last, El.
    + rewrite note_message_msgs, Em. apply is_counter_str.
    + rewrite note_message_cmds. destruct b; [|done].
      rewrite Ec. apply is_counter_str.
    + by rewrite note_message_events, Ee.
  - by rewrite note_message_users, Eu.
  - by rewrite note_message_last, El.
  - rewrite note_message_msgs, Em. apply counter_of_str.
  - rewrite note_message_cmds. destruct b; simpl; [|lia].
    rewrite Ec. apply counter_of_str.
  - by rewrite note_message_events, Ee.
Qed.

Lemma int_or_0_str n : int_or_0 (Some (Text.str n)) = Ok n.
Proof.
  unfold int_or_0. destruct (Text.str n) eqn:E; [by apply str_nonempty in E|].
  rewrite <- E. apply py_int_str.
Qed.

Lemma get_counter o :
  is_counter o → (m ← (get_at o).2; int_or_0 m) = Ok (counter_of o).
Proof.
  destruct o as [[]|]; try done. intros [n ->].
  unfold mbind, result_bind, get_at, counter_of; cbn [snd].
  by rewrite redis_int_str, int_or_0_str.
Qed.

Lemma reads_typed now u m c e l :
  is_set u → is_counter m → is_counter c → is_zset e → is_hash l →
  reads now u m c e l =
    Ok (Snap (Z.of_nat (size (set_of u))) (counter_of m) (counter_of c)
          (Z.of_nat (size (filter (λ x, now - 60 <= x.2 <= now) (zset_of e))))
          (foldl (scan_step now) 0 (values (hash_of l)))).
Proof.
  intros Hu Hm Hc He Hl. unfold reads.
  pose proof (get_counter m Hm) as Em. pose proof (get_counter c Hc) as Ec.
  unfold mbind, result_bind in *.
  destruct u as [[]|]; try done; simpl;
    destruct (get_at m).2 as [m'|]; try done; rewrite Em;
    destruct (get_at c).2 as [c'|]; try done; rewrite Ec;
    destruct e as [[]|]; try done; simpl;
    destruct l as [[]|]; try done.
Qed.

Lemma zremrangebyscore_at_typed b e :
  is_zset e →
  is_zset (zremrangebyscore_at b e).1
  ∧ zset_of (zremrangebyscore_at b e).1 = filter (λ x, b < x.2) (zset_of e)
  ∧ is_ok (zremrangebyscore_at b e).2 = true.
Proof.
  destruct e as [[]|]; simpl; try done; intros _.
  by case_bool_decide as H; simpl; [rewrite H|].
Qed.

Lemma window_after_prune now (z : gmap string Z) :
  filter (λ x, now - 60 <= x.2 <= now) (filter (λ x, now - 600 < x.2) z)
  = filter (λ x, now - 60 <= x.2 <= now) z.
Proof. apply map_filter_filter_l. intros i x _; simpl. lia. Qed.

Lemma snapshot_typed now db :
  well_typed db →
  let db1 := (snapshot now db).1 in
  (snapshot now db).2 =
    Ok (Snap (Z.of_nat (size (set_of (db !! k_users))))
          (counter_of (db !! k_msgs)) (counter_of (db !! k_cmds))
          (Z.of_nat (size (filter (λ x, now - 60 <= x.2 <= now)
                             (zset_of (db !! k_events)))))
          (foldl (scan_step now) 0 (values (hash_of (db !! k_last)))))
  ∧ well_typed db1
  ∧ (∀ k, k ≠ k_events → db1 !! k = db !! k)
  ∧ zset_of (db1 !! k_events)
    = filter (λ x, now - 600 < x.2) (zset_of (db !! k_events)).
Proof.
  intros [Hu Hl Hm Hc He]. pose proof (snapshot_eq now db) as Hs. simpl in *.
  rewrite Hs; simpl.
  destruct (zremrangebyscore_at_typed (now - 600) _ He) as (Ht & Ez & Ok).
  rewrite prune_events_result, prune_events_lookup,
    !prune_events_lookup_ne by key_ne.
  split_and!; [| |by intros; apply prune_events_lookup_ne|done].
  - destruct (zremrangebyscore_at (now - 600) (db !! k_events)).2; [|done].
    simpl. rewrite reads_typed by done. by rewrite Ez, window_after_prune.
  - split; by rewrite ?prune_events_lookup, ?prune_events_lookup_ne by key_ne.
Qed.

(** *** Counting *)

Lemma scan_count now l acc :
  foldl (scan_step now) acc l
  = acc + Z.of_nat (length (filter (within_5m now) l)).
Proof.
  revert acc. induction l as [|ts l IH]; intros acc; simpl; [lia|].
  rewrite IH, filter_cons. unfold scan_step.
  destruct (decide (within_5m now ts)) as [(v & Hv & Hle)|Hn].
  - rewrite Hv. destruct (Z.leb_spec (now - v) 300); simpl; lia.
  - destruct (Text.int_float ts) as [v|e] eqn:E; [|done].
    destruct (Z.leb_spec (now - v) 300); [|done].
    destruct Hn. by exists v.
Qed.

Lemma values_count (P : string → Prop) `{!∀ x, Decision (P x)}
    (h : gmap string string) :
  length (filter P (values h)) = size (filter (λ e, P e.2) h).
Proof.
  unfold values. induction h as [|i x m Hi IH] using map_ind.
  { by rewrite map_to_list_empty, map_filter_empty, map_size_empty. }
  rewrite (map_to_list_insert _ _ _ Hi); simpl. rewrite filter_cons.
  destruct (decide (P x)) as [Hx|Hx].
  - rewrite map_filter_insert_True by done.
    rewrite map_size_insert_None by (by rewrite map_lookup_filter_None; left).
    simpl. f_equal. exact IH.
  - rewrite map_filter_insert_False by done. by rewrite delete_id.
Qed.

Lemma active_count now (h : gmap string string) :
  foldl (scan_step now) 0 (values h)
  = Z.of_nat (size (filter (λ e, within_5m now e.2) h)).
Proof. by rewrite scan_count, values_count. Qed.

(** *** Sequences of calls *)

Lemma well_typed_empty : well_typed ∅.
Proof. by split. Qed.

Lemma run_ops_cons o ops db : run_ops (o :: ops) db = run_ops ops (step o db).
Proof. reflexivity. Qed.

Lemma run_ops_app ops1 ops2 db :
  run_ops (ops1 ++ ops2) db = run_ops ops2 (run_ops ops1 db).
Proof. apply foldl_app. Qed.

Lemma records_length_cons o ops :
  Z.of_nat (length (records (o :: ops)))
  = count_if (is_record o) + Z.of_nat (length (records ops)).
Proof.
  destruct o as [c b t|now].
  - change (records (Record c b t :: ops)) with ((c, b, t) :: records ops).
    cbn [length is_record count_if]. lia.
  - change (records (Snapshot now :: ops)) with (records ops).
    cbn [is_record count_if]. lia.
Qed.

Lemma notable_length_cons o ops :
  Z.of_nat (length (notable (o :: ops)))
  = count_if (is_notable_record o) + Z.of_nat (length (notable ops)).
Proof.
  destruct o as [c b t|now]; [|done].
  unfold notable. change (records (Record c b t :: ops)) with ((c, b, t) :: records ops).
  rewrite filter_cons.
  case_decide as Hb; simpl in Hb; destruct b; try done;
    cbn [length count_if is_notable_record]; lia.
Qed.

Lemma subjects_cons_record c b t ops :
  subjects (Record c b t :: ops) = c :: subjects ops.
Proof. reflexivity. Qed.

Lemma run_ops_typed ops db :
  well_typed db →
  let db' := run_ops ops db in
  well_typed db'
  ∧ counter_of (db' !! k_msgs)
    = counter_of (db !! k_msgs) + Z.of_nat (length (records ops))
  ∧ counter_of (db' !! k_cmds)
    = counter_of (db !! k_cmds) + Z.of_nat (length (notable ops))
  ∧ set_of (db' !! k_users)
    = list_to_set (Text.str <$> subjects ops) ∪ set_of (db !! k_users)
  ∧ dom (hash_of (db' !! k_last))
    = list_to_set (Text.str <$> subjects ops) ∪ dom (hash_of (db !! k_last))
  ∧ (keyed_by_second (zset_of (db !! k_events))
     → keyed_by_second (zset_of (db' !! k_events))).
Proof.
  revert db. induction ops as [|o ops IH]; intros db Hdb; cbn zeta.
  { split_and!; [done | simpl; lia | simpl; lia | | | done];
      change (subjects []) with (@nil Z);
      by rewrite fmap_nil, list_to_set_nil, (left_id_L ∅ (∪)). }
  rewrite run_ops_cons, records_length_cons, notable_length_cons.
  destruct o as [c b t|now]; cbn [step is_record is_notable_record].
  - destruct (note_message_typed c b t db Hdb) as (_ & Ht & Eu & El & Em & Ec & Ee).
    destruct (IH _ Ht) as (Ht' & Em' & Ec' & Eu' & El' & Ee').
    cbn zeta in *. rewrite subjects_cons_record, fmap_cons, list_to_set_cons.
    split_and!; [done | | | | |].
    + rewrite Em', Em. simpl. lia.
    + rewrite Ec', Ec. lia.
    + rewrite Eu', Eu, (assoc_L (∪)). f_equal. apply (comm_L (∪)).
    + rewrite El', El, dom_insert_L, (assoc_L (∪)). f_equal. apply (comm_L (∪)).
    + intros Hk. apply Ee'. rewrite Ee. intros m sc.
      rewrite lookup_insert. case_decide; [congruence | apply Hk].
  - destruct (snapshot_typed now db Hdb) as (_ & Ht & Ene & Ee).
    destruct (IH _ Ht) as (Ht' & Em' & Ec' & Eu' & El' & Ee').
    cbn zeta in *. rewrite !Ene in * by key_ne.
    change (subjects (Snapshot now :: ops)) with (subjects ops).
    split_and!; [done | simpl; lia | simpl; lia | done | done |].
    intros Hk. apply Ee'. rewrite Ee. intros m sc [? _]%map_lookup_filter_Some.
    by apply Hk.
Qed.

(** *** Pruning twice *)

Lemma zremrangebyscore_at_idem b o :
  let o1 := (zremrangebyscore_at b o).1 in
  (zremrangebyscore_at b o1).1 = o1
  ∧ (zremrangebyscore_at b o1).2 = (_ ← (zremrangebyscore_at b o).2; Ok 0).
Proof.
  destruct o as [[s|m|h|z]|]; simpl; try done.
  case_bool_decide as Hkeep; simpl; [done|].
  rewrite map_filter_id by (by intros i x [_ ?]%map_lookup_filter_Some).
  rewrite bool_decide_eq_false_2 by done. split; [done|].
  f_equal. lia.
Qed.

Lemma prune_events_idem b db :
  prune_events b (prune_events b db).1 = prune_events b db.
Proof.
  destruct (zremrangebyscore_at_idem b (db !! k_events)) as [E1 E2]; simpl in *.
  rewrite (surjective_pairing (prune_events b (prune_events b db).1)).
  rewrite (surjective_pairing (prune_events b db)) at 3.
  f_equal.
  - rewrite (prune_events_store b (prune_events b db).1).
    apply on_key_same. by rewrite prune_events_lookup.
  - rewrite !prune_events_result, prune_events_lookup, E2.
    by destruct (zremrangebyscore_at b (db !! k_events)).2.
Qed.

Lemma all_return_typed ops db : well_typed db → all_return ops db = true.
Proof.
  revert db. induction ops as [|o ops IH]; intros db Hdb; [done|].
  cbn [all_return]. destruct o as [c b t|now]; cbn [returns step].
  - destruct (note_message_typed c b t db Hdb) as (-> & Ht & _). by rewrite IH.
  - destruct (snapshot_typed now db Hdb) as (-> & Ht & _). by rewrite IH.
Qed.

Lemma snapshot_store now db : (snapshot now db).1 = (prune_events (now - 600) db).1.
Proof. by rewrite snapshot_eq. Qed.

Lemma snapshot_events now db :
  zset_of ((snapshot now db).1 !! k_events)
  = filter (λ e, now - 600 < e.2) (zset_of (db !! k_events)).
Proof.
  rewrite snapshot_store, prune_events_lookup.
  destruct (db !! k_events) as [[s|m|h|z]|]; simpl;
    try (by rewrite map_filter_empty).
  by case_bool_decide as H; simpl; [rewrite H|].
Qed.

(** *** The scan of the last-seen map *)



Lemma snapshot_result now db :
  (snapshot now db).2 =
    (_ ← (zremrangebyscore_at (now - 600) (db !! k_events)).2;
     reads now (db !! k_users) (db !! k_msgs) (db !! k_cmds)
       (zremrangebyscore_at (now - 600) (db !! k_events)).1 (db !! k_last)).
Proof.
  rewrite snapshot_eq; cbn [snd].
  rewrite prune_events_result, prune_events_lookup,
    !prune_events_lookup_ne by key_ne.
  by destruct (zremrangebyscore_at (now - 600) (db !! k_events)).2.
Qed.


Lemma within_5m_str now t :
  - 2 ^ 53 <= t <= 2 ^ 53 → within_5m now (Text.str t) ↔ now - t <= 300.
Proof.
  intros Ht. unfold within_5m. rewrite (int_float_str t Ht). split.
  - by intros (v & [= <-] & Hle).
  - intros Hle. by exists t.
Qed.


(** *** The rate window *)


End MetricsFacts.

(** * The claims of the specification *)

Import Redis Metrics View TextFacts MetricsFacts.

(** C1 (end-to-end scenario).  Three events of subject [a], two of them
    notable, and one event of another subject [b], not notable, all in the
    second [t], then a snapshot at [t]: two subjects, four messages, two
    commands and two active subjects are reported, but the rate is 1 and not
    4, because the four events share one member of the index.  ([t] is within
    the integers that a float holds exactly.) *)
Theorem end_to_end_same_second a b t f1 f2 f3 :
  a ≠ b → - 2 ^ 53 <= t <= 2 ^ 53 →
  count_if f1 + count_if f2 + count_if f3 = 2 →
  (snapshot t (run_ops [Record a f1 t; Record a f2 t; Record a f3 t;
                        Record b false t] ∅)).2
  = Ok (Snap 2 4 2 1 2).
Proof.
  intros Hab Ht Hf. cbn [run_ops foldl step].
  destruct (note_message_typed a f1 t ∅ well_typed_empty)
    as (_ & T1 & U1 & L1 & M1 & C1 & E1).
  destruct (note_message_typed a f2 t _ T1) as (_ & T2 & U2 & L2 & M2 & C2 & E2).
  destruct (note_message_typed a f3 t _ T2) as (_ & T3 & U3 & L3 & M3 & C3 & E3).
  destruct (note_message_typed b false t _ T3) as (_ & T4 & U4 & L4 & M4 & C4 & E4).
  destruct (snapshot_typed t _ T4) as (Es & _).
  cbn zeta in *. rewrite Es. clear Es.
  rewrite lookup_empty in U1, L1, M1, C1, E1. cbn in U1, L1, M1, C1, E1.
  rewrite U4, U3, U2, U1, L4, L3, L2, L1, M4, M3, M2, M1, C4, C3, C2, C1,
    E4, E3, E2, E1.
  rewrite !insert_insert_eq, active_count. do 2 f_equal.
  - assert (Text.str b ≠ Text.str a) as Hne by (intros ?%str_inj; done).
    rewrite (right_id_L ∅ (∪)), !(idemp_L (∪)).
    rewrite size_union by (by apply disjoint_singleton_l, not_elem_of_singleton).
    by rewrite !size_singleton.
  - simpl. lia.
  - rewrite map_filter_insert_True by (simpl; lia).
    by rewrite map_filter_empty, map_size_insert_None, map_size_empty.
  - assert (within_5m t (Text.str t)) as Hw by (apply within_5m_str; lia).
    assert (Text.str b ≠ Text.str a) as Hne by (intros ?%str_inj; done).
    rewrite !map_filter_insert_True by done. rewrite map_filter_empty.
    rewrite !map_size_insert_None, map_size_empty; [done..|].
    by rewrite lookup_insert_ne.
Qed.

Example end_to_end_evaluated :
  (snapshot 1700000000
     (run_ops [Record 1 true 1700000000; Record 1 true 1700000000;
               Record 1 false 1700000000; Record 2 false 1700000000] ∅)).2
  = Ok (Snap 2 4 2 1 2).
Proof. by vm_compute. Qed.

Lemma end_to_end_same_second_witness :
  let t := 1700000000 in
  (snapshot t (run_ops [Record 1 true t; Record 1 true t; Record 1 false t;
                        Record 2 false t] ∅)).2
  = Ok (Snap 2 4 2 1 2).
Proof.
  cbn zeta. apply end_to_end_same_second;
    [done | split; by vm_compute | reflexivity].
Defined.

(** C2 (pruning boundary).  A snapshot at [now] leaves in the index exactly
    the entries whose timestamp is above [now - 600]: the range of the
    removal includes its upper end, so an entry at [now - 600] itself is
    removed.  An event at second 1000 is gone after the snapshot at 1600 and
    still there after the snapshot at 1599. *)
Theorem prune_boundary now db :
  zset_of ((snapshot now db).1 !! k_events)
  = filter (λ e, now - 600 < e.2) (zset_of (db !! k_events))
  ∧ (let db1 := run_ops [Record 1 false 1000] ∅ in
     zset_of (db1 !! k_events) !! "1000"%string = Some 1000
     ∧ zset_of ((snapshot 1600 db1).1 !! k_events) !! "1000"%string = None
     ∧ zset_of ((snapshot 1599 db1).1 !! k_events) !! "1000"%string = Some 1000).
Proof. split; [apply snapshot_events | by vm_compute]. Qed.

(** C3 (record atomicity), as the code has it.  The batch of a [record]
    call is a pipeline without a transaction: every command is applied to
    its own key exactly as if it ran alone on the store the call started
    from, whether or not another command of the batch fails; a command that
    fails leaves the store as it was; keys outside the batch are untouched;
    and the caller sees a failure exactly when at least one command
    fails. *)
Theorem note_message_batch c b t db :
  (∀ cmd, cmd ∈ batch c b t →
     (note_message c b t db).1 !! key_of cmd = (run cmd db).1 !! key_of cmd)
  ∧ (∀ cmd e, (run cmd db).2 = Raise e → (run cmd db).1 = db)
  ∧ (∀ k, k ∉ key_of <$> batch c b t → (note_message c b t db).1 !! k = db !! k)
  ∧ is_ok (note_message c b t db).2
    = forallb (λ cmd, is_ok (run cmd db).2) (batch c b t).
Proof.
  split_and!.
  - intros cmd Hcmd. by rewrite note_message_lookup, run_lookup.
  - intros cmd e. apply run_fail.
  - apply note_message_lookup_ne.
  - apply note_message_result.
Qed.

(** C3, the claim as stated, fails: when the message counter holds a text
    that is not an integer, the call raises, and yet the subject has been
    added to the known-subjects set, which was empty before. *)
Lemma note_message_partial_effects :
  let db := {[ k_msgs := RString "abc" ]} : gmap string rvalue in
  let out := note_message 1 false 5 db in
  out.2 = Raise not_integer
  ∧ db !! k_users = None
  ∧ out.1 !! k_users = Some (RSet {[ "1"%string ]})
  ∧ out.1 ≠ db.
Proof.
  cbn zeta. split_and!; [by vm_compute | by vm_compute | by vm_compute |].
  intros H. apply (f_equal (λ m, m !! k_users)) in H. by vm_compute in H.
Qed.

(** C4 (monotonic counters).  In any sequence of calls on an empty store,
    [record] calls with [snapshot] calls in between, every call returns
    normally, and a snapshot after it reports as lifetime messages the number
    of [record] calls and as lifetime commands the number of those that were
    notable; a snapshot changes neither counter, on any store. *)
Theorem lifetime_counters ops now :
  all_return ops ∅ = true
  ∧ (∃ s, (snapshot now (run_ops ops ∅)).2 = Ok s
          ∧ msgs_total s = Z.of_nat (length (records ops))
          ∧ cmds_total s = Z.of_nat (length (notable ops)))
  ∧ (∀ db, (snapshot now db).1 !! k_msgs = db !! k_msgs
           ∧ (snapshot now db).1 !! k_cmds = db !! k_cmds).
Proof.
  split_and!.
  - apply all_return_typed, well_typed_empty.
  - destruct (run_ops_typed ops ∅ well_typed_empty) as (Ht & Em & Ec & _).
    destruct (snapshot_typed now _ Ht) as (Es & _).
    cbn zeta in *. eexists. split; [exact Es|]. simpl.
    rewrite Em, Ec, !lookup_empty. simpl. lia.
  - intros db. rewrite snapshot_store.
    split; by rewrite prune_events_lookup_ne by key_ne.
Qed.

(** C5 (set semantics).  After any sequence of calls on an empty store, a
    snapshot reports as total subjects the number of distinct subject ids
    that were recorded; recording a subject once more, at any time and with
    any flag, leaves that number as it is. *)
Theorem total_subjects_distinct ops now :
  (∃ s, (snapshot now (run_ops ops ∅)).2 = Ok s
        ∧ total_users s = Z.of_nat (length (remove_dups (subjects ops))))
  ∧ (∀ c b t b' t',
       ∃ s s', (snapshot now (run_ops (ops ++ [Record c b t]) ∅)).2 = Ok s
               ∧ (snapshot now
                    (run_ops (ops ++ [Record c b t; Record c b' t']) ∅)).2 = Ok s'
               ∧ total_users s' = total_users s).
Proof.
  assert (Hsize : ∀ l : list Z,
    size (list_to_set (C := gset string) (Text.str <$> l)) = length (remove_dups l)).
  { intros l.
    transitivity (size (list_to_set (C := gset string) (Text.str <$> remove_dups l))).
    - f_equal. apply set_eq. intros x.
      rewrite !elem_of_list_to_set, !list_elem_of_fmap.
      by setoid_rewrite elem_of_remove_dups.
    - rewrite size_list_to_set; [apply length_fmap|].
      apply NoDup_fmap; [apply _ | apply NoDup_remove_dups]. }
  assert (Htotal : ∀ ops', ∃ s, (snapshot now (run_ops ops' ∅)).2 = Ok s
      ∧ total_users s = Z.of_nat (length (remove_dups (subjects ops')))).
  { intros ops'.
    destruct (run_ops_typed ops' ∅ well_typed_empty) as (Ht & _ & _ & Eu & _).
    destruct (snapshot_typed now _ Ht) as (Es & _).
    cbn zeta in *. eexists. split; [exact Es|]. simpl.
    rewrite Eu, lookup_empty. cbn [set_of].
    by rewrite (right_id_L ∅ (∪)), Hsize. }
  split; [apply Htotal|].
  intros c b t b' t'.
  destruct (Htotal (ops ++ [Record c b t])) as (s & Es & Hs).
  destruct (Htotal (ops ++ [Record c b t; Record c b' t'])) as (s' & Es' & Hs').
  exists s, s'. split_and!; [done..|]. rewrite Hs, Hs'.
  rewrite <- !Hsize. do 2 f_equal. unfold subjects, records.
  rewrite !omap_app, !fmap_app. simpl.
  apply set_eq. intros x. rewrite !elem_of_list_to_set, !elem_of_app.
  rewrite !elem_of_cons, !elem_of_nil. tauto.
Qed.





(** C8 (snapshot idempotence).  A second snapshot at the same [now], with no
    call in between, returns what the first returned and leaves the store as
    the first left it; its removal answers that it removed nothing (or fails
    as the first did, on a key that is no sorted set). *)
Theorem snapshot_idempotent now db :
  let db1 := (snapshot now db).1 in
  snapshot now db1 = snapshot now db
  ∧ (prune_events (now - 600) db1).1 = db1
  ∧ (zremrangebyscore_upto k_events (now - 600) db1).2
    = (_ ← (zremrangebyscore_upto k_events (now - 600) db).2; Ok 0).
Proof.
  cbn zeta. split_and!.
  - rewrite snapshot_store, !snapshot_eq. cbn zeta.
    by rewrite prune_events_idem.
  - by rewrite snapshot_store, prune_events_idem.
  - unfold zremrangebyscore_upto.
    rewrite !on_key_result, snapshot_store, prune_events_lookup.
    apply zremrangebyscore_at_idem.
Qed.



(** * Further properties of the code *)

Import Trace.

#[local] Set Warnings "-clear-no-such-hyp".

(** ** When the calls return *)

Module ReturnFacts.



End ReturnFacts.

Import ReturnFacts.



(** X3.  On a store that has none of the five keys, whatever else it
    holds, [snapshot] reports zero in every field and leaves the store as it
    is. *)
Theorem snapshot_of_absent_keys now db :
  db !! k_users = None → db !! k_msgs = None → db !! k_cmds = None →
  db !! k_events = None → db !! k_last = None →
  snapshot now db = (db, Ok (Snap 0 0 0 0 0)).
Proof.
  intros Hu Hm Hc He Hl.
  rewrite (surjective_pairing (snapshot now db)). f_equal.
  - rewrite snapshot_store, prune_events_store. apply on_key_same.
    by rewrite He.
  - rewrite snapshot_result, Hu, Hm, Hc, He, Hl. reflexivity.
Qed.

Lemma snapshot_of_absent_keys_witness :
  let db : gmap string rvalue := {[ "sessions"%string := RString "7" ]} in
  snapshot 1700000000 db = (db, Ok (Snap 0 0 0 0 0)).
Proof. cbn zeta. apply snapshot_of_absent_keys; reflexivity. Defined.

(** X4.  [snapshot] writes nothing but the event index: every other key of
    the store is as before, and the index afterwards is a part of the index
    before. *)
Theorem snapshot_writes_only_index now db :
  delete k_events (snapshot now db).1 = delete k_events db
  ∧ zset_of ((snapshot now db).1 !! k_events) ⊆ zset_of (db !! k_events).
Proof.
  split.
  - apply map_eq. intros k. destruct (decide (k = k_events)) as [->|Hk].
    + by rewrite !lookup_delete_eq.
    + rewrite !lookup_delete_ne by done.
      by rewrite snapshot_store, prune_events_lookup_ne.
  - rewrite snapshot_events. apply map_filter_subseteq.
Qed.

(** ** What the store holds after a sequence of calls *)

Module TraceFacts.

Lemma last_seen_snoc ops o :
  last_seen (ops ++ [o])
  = match o with
    | Record c _ t => <[c := t]> (last_seen ops)
    | Snapshot _ => last_seen ops
    end.
Proof. unfold last_seen. by rewrite foldl_app. Qed.

Lemma seconds_snoc ops o :
  seconds (ops ++ [o])
  = match o with
    | Record _ _ t => {[t]} ∪ seconds ops
    | Snapshot now => filter (λ t, now - 600 < t) (seconds ops)
    end.
Proof. unfold seconds. by rewrite foldl_app. Qed.

Lemma kmap_str_insert {V} (m : gmap Z V) i x :
  kmap (M2 := gmap string) Text.str (<[i := x]> m)
  = <[Text.str i := x]> (kmap Text.str m).
Proof. apply kmap_insert, _. Qed.

Lemma lookup_kmap_str {V} (m : gmap Z V) i :
  kmap (M2 := gmap string) Text.str m !! Text.str i = m !! i.
Proof. apply lookup_kmap, _. Qed.

Lemma run_ops_snoc ops o db : run_ops (ops ++ [o]) db = step o (run_ops ops db).
Proof. by rewrite run_ops_app. Qed.

Lemma run_ops_well_typed ops : well_typed (run_ops ops ∅).
Proof. by destruct (run_ops_typed ops ∅ well_typed_empty) as (? & _). Qed.

(** The last-seen hash of the store is the table of last calls, keys and
    values written as decimal texts. *)
Lemma run_ops_last_seen ops :
  hash_of (run_ops ops ∅ !! k_last) = kmap Text.str (Text.str <$> last_seen ops).
Proof.
  induction ops as [|o ops IH] using rev_ind.
  { unfold run_ops, last_seen; cbn [foldl].
    by rewrite lookup_empty, fmap_empty, kmap_empty. }
  rewrite run_ops_snoc, last_seen_snoc.
  pose proof (run_ops_well_typed ops) as Ht.
  destruct o as [c b t|now]; cbn [step].
  - destruct (note_message_typed c b t _ Ht) as (_ & _ & _ & El & _).
    cbn zeta in El. rewrite El, IH, fmap_insert. by rewrite kmap_str_insert.
  - destruct (snapshot_typed now _ Ht) as (_ & _ & Ene & _).
    cbn zeta in Ene. by rewrite Ene by key_ne.
Qed.

(** The event index of the store is the set of seconds recorded and not
    pruned, each under its decimal text. *)
Lemma run_ops_seconds ops m sc :
  zset_of (run_ops ops ∅ !! k_events) !! m = Some sc
  ↔ m = Text.str sc ∧ sc ∈ seconds ops.
Proof.
  revert m sc. induction ops as [|o ops IH] using rev_ind; intros m sc.
  { unfold run_ops, seconds; cbn [foldl]. rewrite lookup_empty.
    cbn [zset_of]. rewrite lookup_empty.
    split; [done | intros [_ []%elem_of_empty]]. }
  rewrite run_ops_snoc, seconds_snoc.
  pose proof (run_ops_well_typed ops) as Ht.
  destruct o as [c b t|now]; cbn [step].
  - destruct (note_message_typed c b t _ Ht) as (_ & _ & _ & _ & _ & _ & Ee).
    cbn zeta in Ee. rewrite Ee, lookup_insert, elem_of_union, elem_of_singleton.
    case_decide as Hm.
    + subst m. split; [intros [= <-]; auto|].
      intros [?%str_inj _]. by subst.
    + rewrite IH. split; [naive_solver|].
      intros [-> [->|?]]; [done | auto].
  - destruct (snapshot_typed now _ Ht) as (_ & _ & _ & Ee).
    cbn zeta in Ee. rewrite Ee, map_lookup_filter_Some, elem_of_filter, IH.
    simpl. naive_solver.
Qed.

(** Counting the entries of a table through the texts of its keys. *)
Lemma size_filter_kmap {V} (P : V → Prop) `{!∀ v, Decision (P v)}
    (m : gmap Z V) :
  size (filter (λ e, P e.2) (kmap (M2 := gmap string) Text.str m))
  = size (filter (λ e, P e.2) m).
Proof.
  induction m as [|i x m Hi IH] using map_ind.
  { by rewrite kmap_empty, !map_filter_empty. }
  rewrite kmap_str_insert.
  assert (kmap (M2 := gmap string) Text.str m !! Text.str i = None) as Hi'.
  { by rewrite lookup_kmap_str. }
  destruct (decide (P x)) as [Hx|Hx].
  - rewrite !map_filter_insert_True by done.
    rewrite !map_size_insert_None by (by rewrite map_lookup_filter_None; left).
    by rewrite IH.
  - rewrite !map_filter_insert_False by done. by rewrite !delete_id.
Qed.

Lemma size_filter_dom {V} (P : Z → Prop) `{!∀ t, Decision (P t)}
    (m : gmap Z V) :
  size (filter (λ e, P e.1) m) = size (filter P (dom m)).
Proof.
  rewrite <- size_dom. f_equal. apply dom_filter_L. intros i.
  rewrite elem_of_filter, elem_of_dom. unfold is_Some. naive_solver.
Qed.

Lemma size_seconds_window now ops :
  size (filter (λ e, now - 60 <= e.2 <= now) (zset_of (run_ops ops ∅ !! k_events)))
  = size (filter (λ t, now - 60 <= t <= now) (seconds ops)).
Proof.
  rewrite <- (size_dom (D := gset string)).
  assert (dom (filter (λ e : string * Z, now - 60 <= e.2 <= now)
                 (zset_of (run_ops ops ∅ !! k_events)))
          = set_map (D := gset string) Text.str
              (filter (λ t, now - 60 <= t <= now) (seconds ops))) as ->.
  { apply set_eq. intros m. rewrite elem_of_dom, elem_of_map. unfold is_Some.
    split.
    - intros [sc [Hz Hw]%map_lookup_filter_Some].
      apply run_ops_seconds in Hz as [-> Hs]. exists sc. split; [done|].
      by apply elem_of_filter.
    - intros (t & -> & [Hw Hs]%elem_of_filter). exists t.
      apply map_lookup_filter_Some. split; [by apply run_ops_seconds | done]. }
  generalize (filter (λ t, now - 60 <= t <= now) (seconds ops)). intros X.
  induction X as [|t X Ht IH] using set_ind_L.
  { by rewrite set_map_empty, !size_empty. }
  rewrite set_map_union_L, set_map_singleton_L.
  rewrite !size_union, !size_singleton, IH; [done | |].
  - by apply disjoint_singleton_l.
  - apply disjoint_singleton_l. rewrite elem_of_map.
    intros (t' & ?%str_inj & Ht'). by subst.
Qed.

End TraceFacts.

Import TraceFacts.

Module GaugeFacts.

Lemma last_seen_recorded ops c t :
  last_seen ops !! c = Some t → ∃ b, (c, b, t) ∈ records ops.
Proof.
  induction ops as [|o ops IH] using rev_ind; [done|].
  rewrite last_seen_snoc. unfold records. rewrite omap_app.
  destruct o as [c' b' t'|now]; simpl.
  - rewrite lookup_insert. case_decide as Hc.
    + intros [= <-]. subst c'. exists b'. rewrite elem_of_app. right.
      by apply list_elem_of_singleton.
    + intros [b Hb]%IH. exists b. rewrite elem_of_app. by left.
  - intros [b Hb]%IH. exists b. rewrite elem_of_app. by left.
Qed.

Lemma size_seconds_le ops : (size (seconds ops) ≤ length (records ops))%nat.
Proof.
  induction ops as [|o ops IH] using rev_ind; [done|].
  rewrite seconds_snoc. unfold records. rewrite omap_app, length_app.
  fold (records ops). destruct o as [c b t|now]; simpl.
  - rewrite size_union_alt, size_singleton.
    assert (seconds ops ∖ {[t]} ⊆ seconds ops) as H%subseteq_size by set_solver.
    lia.
  - assert (filter (λ t, now - 600 < t) (seconds ops) ⊆ seconds ops)
      as H%subseteq_size by (intros ? [_ ?]%elem_of_filter; done).
    lia.
Qed.

Lemma size_subjects_le (l : list Z) :
  (size (list_to_set (C := gset string) (Text.str <$> l)) ≤ length l)%nat.
Proof.
  induction l as [|x l IH]; [done|].
  rewrite fmap_cons, list_to_set_cons, size_union_alt, size_singleton.
  assert (list_to_set (C := gset string) (Text.str <$> l) ∖ {[Text.str x]}
          ⊆ list_to_set (Text.str <$> l)) as H%subseteq_size by set_solver.
  simpl. lia.
Qed.




End GaugeFacts.
Import GaugeFacts.

(** X5.  After any sequence of calls on an empty store, the last-seen map
    holds for each subject the timestamp of the subject's latest [record]
    call, both written as decimal texts.  The latest call wins, whether its
    timestamp is newer or older than the one it replaces. *)
Theorem last_seen_holds_last_call ops :
  hash_of (run_ops ops ∅ !! k_last) = kmap Text.str (Text.str <$> last_seen ops)
  ∧ (∀ c, hash_of (run_ops ops ∅ !! k_last) !! Text.str c
          = Text.str <$> last_seen ops !! c)
  ∧ (∀ c b t, hash_of (run_ops (ops ++ [Record c b t]) ∅ !! k_last) !! Text.str c
              = Some (Text.str t)).
Proof.
  split_and!.
  - apply run_ops_last_seen.
  - intros c. by rewrite run_ops_last_seen, lookup_kmap_str, lookup_fmap.
  - intros c b t.
    rewrite run_ops_last_seen, lookup_kmap_str, lookup_fmap, last_seen_snoc.
    by rewrite lookup_insert_eq.
Qed.

(** X6.  With timestamps that a float holds exactly, the 5-minute gauge of
    a snapshot at [now] is the number of subjects whose latest [record] call
    carried a timestamp [t] with [now - t <= 300]. *)
Theorem active_counts_last_calls ops now :
  Forall (λ r : Z * bool * Z, exact r.2) (records ops) →
  ∃ s, (snapshot now (run_ops ops ∅)).2 = Ok s
       ∧ active_users_5m s
         = Z.of_nat (size (filter (λ e, now - e.2 <= 300) (last_seen ops))).
Proof.
  intros Hex. destruct (snapshot_typed now _ (run_ops_well_typed ops)) as (Es & _).
  cbn zeta in Es. eexists. split; [exact Es|]. cbn [active_users_5m].
  rewrite active_count, run_ops_last_seen. f_equal.
  rewrite (size_filter_kmap (within_5m now)), map_filter_fmap, map_size_fmap.
  f_equal. apply map_filter_ext. intros c t Hc. simpl.
  apply within_5m_str. destruct (last_seen_recorded ops c t Hc) as [b Hb].
  rewrite Forall_forall in Hex. apply (Hex _ Hb).
Qed.

Lemma active_counts_last_calls_witness :
  ∃ s, (snapshot 1000
          (run_ops [Record 1 false 1000; Record 1 false 600; Record 2 true 900] ∅)).2
       = Ok s
       ∧ active_users_5m s
         = Z.of_nat (size (filter (λ e, 1000 - e.2 <= 300)
                             (last_seen [Record 1 false 1000; Record 1 false 600;
                                         Record 2 true 900]))).
Proof.
  apply active_counts_last_calls. repeat constructor; by vm_compute.
Defined.





(** ** Calls in a different order *)

Module OrderFacts.

Lemma sadd_at_comm m1 m2 o :
  (sadd_at m2 (sadd_at m1 o).1).1 = (sadd_at m1 (sadd_at m2 o).1).1.
Proof. destruct o as [[]|]; simpl; try done; do 2 f_equal; set_solver. Qed.

Lemma hset_at_comm f1 v1 f2 v2 o :
  f1 ≠ f2 →
  (hset_at f2 v2 (hset_at f1 v1 o).1).1 = (hset_at f1 v1 (hset_at f2 v2 o).1).1.
Proof.
  intros Hf. destruct o as [[]|]; simpl; try done; do 2 f_equal.
  - by apply insert_insert_ne.
  - rewrite <- !insert_empty. by apply insert_insert_ne.
Qed.

Lemma zadd_at_comm t1 t2 o :
  (zadd_at (Text.str t2) t2 (zadd_at (Text.str t1) t1 o).1).1
  = (zadd_at (Text.str t1) t1 (zadd_at (Text.str t2) t2 o).1).1.
Proof.
  destruct (decide (t1 = t2)) as [->|Ht]; [done|].
  assert (Text.str t2 ≠ Text.str t1) by (by intros ?%str_inj).
  destruct o as [[]|]; simpl; try done; do 2 f_equal.
  - by apply insert_insert_ne.
  - rewrite <- !insert_empty. by apply insert_insert_ne.
Qed.

Lemma note_message_other c b t db k :
  k ≠ k_users → k ≠ k_last → k ≠ k_msgs → k ≠ k_events → k ≠ k_cmds →
  (note_message c b t db).1 !! k = db !! k.
Proof.
  intros. apply note_message_lookup_ne. unfold batch.
  destruct b; set_solver.
Qed.





End OrderFacts.
Import OrderFacts.

(** X10.  Two [note_message] calls for different chats leave the same store
    in either order, on any store, whether or not they raise. *)
Theorem records_commute c1 b1 t1 c2 b2 t2 db :
  c1 ≠ c2 →
  (note_message c2 b2 t2 (note_message c1 b1 t1 db).1).1
  = (note_message c1 b1 t1 (note_message c2 b2 t2 db).1).1.
Proof.
  intros Hc. apply map_eq. intros k.
  assert (Text.str c1 ≠ Text.str c2) as Hs by (by intros ?%str_inj).
  destruct (decide (k = k_users)) as [->|Hu].
  { rewrite !note_message_users. apply sadd_at_comm. }
  destruct (decide (k = k_last)) as [->|Hl].
  { rewrite !note_message_last. by apply hset_at_comm. }
  destruct (decide (k = k_msgs)) as [->|Hm].
  { by rewrite !note_message_msgs. }
  destruct (decide (k = k_events)) as [->|He].
  { rewrite !note_message_events. apply zadd_at_comm. }
  destruct (decide (k = k_cmds)) as [->|Hk].
  { rewrite !note_message_cmds. by destruct b1, b2. }
  by rewrite !note_message_other.
Qed.

Lemma records_commute_witness :
  let db : gmap string rvalue := {[ k_msgs := RString "many" ]} in
  (note_message 2 false 1001 (note_message 1 true 1000 db).1).1
  = (note_message 1 true 1000 (note_message 2 false 1001 db).1).1.
Proof. cbn zeta. apply records_commute. lia. Defined.


(** X12.  The totals never go down: after any further calls, a snapshot
    reports at least the subjects, messages and commands that a snapshot
    reported before them. *)
Theorem totals_monotone ops1 ops2 now1 now2 :
  ∃ s1 s2, (snapshot now1 (run_ops ops1 ∅)).2 = Ok s1
           ∧ (snapshot now2 (run_ops (ops1 ++ ops2) ∅)).2 = Ok s2
           ∧ total_users s1 <= total_users s2
           ∧ msgs_total s1 <= msgs_total s2
           ∧ cmds_total s1 <= cmds_total s2.
Proof.
  rewrite run_ops_app.
  pose proof (run_ops_well_typed ops1) as Ht1.
  destruct (run_ops_typed ops2 _ Ht1) as (Ht2 & Em & Ec & Eu & _).
  destruct (snapshot_typed now1 _ Ht1) as (Es1 & _).
  destruct (snapshot_typed now2 _ Ht2) as (Es2 & _).
  cbn zeta in *. do 2 eexists. split; [exact Es1|]. split; [exact Es2|].
  cbn [total_users msgs_total cmds_total]. rewrite Em, Ec, Eu.
  split_and!; [|lia..].
  apply inj_le, subseteq_size. set_solver.
Qed.

(** ** Texts of messages *)

Module StrFacts.
Import Str.

Lemma lstrip_idem s : lstrip (lstrip s) = lstrip s.
Proof.
  induction s as [|c s IH]; [done|]. simpl.
  destruct (isspace c) eqn:E; [done|]. simpl. by rewrite E.
Qed.

Lemma rstrip_idem s : rstrip (rstrip s) = rstrip s.
Proof. unfold rstrip. by rewrite rev_involutive, lstrip_idem. Qed.

Lemma lstrip_app_nonspace s c r :
  isspace c = false → lstrip (s ++ c :: r) = lstrip s ++ c :: r.
Proof.
  intros Hc. induction s as [|d s IH]; simpl; [by rewrite Hc|].
  by destruct (isspace d).
Qed.

Lemma rstrip_nonspace s c : isspace c = false → rstrip (s ++ [c]) = s ++ [c].
Proof.
  intros Hc. unfold rstrip. rewrite rev_app_distr. simpl. rewrite Hc.
  simpl. by rewrite rev_involutive.
Qed.

Lemma lstrip_blank s : forallb isspace s = true → lstrip s = [].
Proof.
  induction s as [|c s IH]; [done|]. simpl.
  intros [-> Hs]%andb_true_iff. by apply IH.
Qed.

Lemma rstrip_blank s : forallb isspace s = true → rstrip s = [].
Proof.
  intros Hs. unfold rstrip. rewrite lstrip_blank; [done|].
  rewrite forallb_forall in *. intros x Hx. apply Hs. by apply in_rev.
Qed.

Lemma startswith_app {A} `{EqDecision A} (p s : list A) :
  startswith (p ++ s) p = true.
Proof.
  induction p as [|a p IH]; [by destruct s|]. simpl.
  by rewrite bool_decide_eq_true_2, IH.
Qed.

Lemma endswith_app {A} `{EqDecision A} (s p : list A) :
  endswith (s ++ p) p = true.
Proof. unfold endswith. rewrite rev_app_distr. apply startswith_app. Qed.

Lemma of_string_inj s1 s2 : of_string s1 = of_string s2 → s1 = s2.
Proof.
  unfold of_string. intros H.
  rewrite <- (string_of_list_ascii_of_string s1),
    <- (string_of_list_ascii_of_string s2). f_equal.
  revert H. generalize (list_ascii_of_string s1) (list_ascii_of_string s2).
  intros l1. induction l1 as [|a l1 IH]; intros [|b l2]; simpl; try done.
  intros [= Hab Hl]. f_equal; [|by apply IH].
  by rewrite <- (ascii_N_embedding a), <- (ascii_N_embedding b), Hab.
Qed.

Lemma numeric_uint d :
  Forall (λ c, numeric c = true) (of_string (NilEmpty.string_of_uint d)).
Proof. induction d; simpl; constructor; done. Qed.

Lemma numeric_str n : Forall (λ c, numeric c = true) (of_string (Text.str n)).
Proof.
  unfold Text.str. destruct n as [|p|p]; simpl Z.to_int;
    simpl NilEmpty.string_of_int.
  - by repeat constructor.
  - apply numeric_uint.
  - constructor; [done | apply numeric_uint].
Qed.

(** Two texts that begin with a run of characters of one kind and go on
    with a character of another kind agree on the run and on the rest. *)
Lemma run_split {A} (P : A → bool) l1 l2 x1 x2 r1 r2 :
  Forall (λ c, P c = true) l1 → Forall (λ c, P c = true) l2 →
  P x1 = false → P x2 = false →
  l1 ++ x1 :: r1 = l2 ++ x2 :: r2 → l1 = l2 ∧ r1 = r2.
Proof.
  intros H1. revert l2. induction H1 as [|a l1 Ha H1 IH]; intros l2 H2 Hx1 Hx2.
  - destruct H2 as [|b l2 Hb H2]; simpl; [by intros [= _ ->]|].
    intros [= -> _]. congruence.
  - destruct H2 as [|b l2 Hb H2]; simpl.
    + intros [= -> _]. congruence.
    + intros [= -> Hl]. destruct (IH l2 H2 Hx1 Hx2 Hl) as [-> ->]. done.
Qed.

Lemma str_split a b x1 x2 r1 r2 :
  numeric x1 = false → numeric x2 = false →
  of_string (Text.str a) ++ x1 :: r1 = of_string (Text.str b) ++ x2 :: r2 →
  a = b ∧ r1 = r2.
Proof.
  intros Hx1 Hx2 H.
  destruct (run_split numeric _ _ _ _ _ _ (numeric_str a) (numeric_str b)
              Hx1 Hx2 H) as [Hab ->].
  split; [|done]. by apply str_inj, of_string_inj.
Qed.

End StrFacts.

Module BotFacts.
Import Str Bot StrFacts.

Lemma closed_text_marked (s : Str.text) :
  rstrip (s ++ of_string "(closed)") = s ++ of_string "(closed)"
  ∧ endswith (s ++ of_string "(closed)") (of_string "(closed)") = true.
Proof.
  split; [|apply endswith_app].
  change (of_string "(closed)") with (of_string "(closed" ++ [41%N]).
  rewrite app_assoc. by apply rstrip_nonspace.
Qed.

End BotFacts.
Import Str Bot StrFacts BotFacts.

(** X13.  The text that [cb_close] writes always ends with the marker
    ["(closed)"], and closing a closed text changes nothing: no second
    marker is added.  A message without text, or with white space only,
    gets the marker alone. *)
Theorem closed_text_idempotent t :
  closed_text (Some (closed_text t)) = closed_text t
  ∧ endswith (closed_text t) (of_string "(closed)") = true
  ∧ (forallb isspace (default [] t) = true
     → closed_text t = of_string "(closed)").
Proof.
  assert (∀ u, rstrip u = u → endswith u (of_string "(closed)") = true →
               closed_text (Some u) = u) as Hfix.
  { intros u Hu He. unfold closed_text.
    change (default [] (Some u)) with u. cbn zeta. by rewrite Hu, He. }
  unfold closed_text at 2 3 4 5.
  set (u := rstrip (default [] t)).
  assert (strip (u ++ of_string " (closed)")
          = lstrip (u ++ [32%N]) ++ of_string "(closed)") as Hs.
  { unfold strip.
    change (u ++ of_string " (closed)")
      with (u ++ [32%N] ++ 40%N :: of_string "closed)").
    rewrite app_assoc, lstrip_app_nonspace by done.
    apply closed_text_marked. }
  split_and!.
  - destruct (endswith u (of_string "(closed)")) eqn:He; cbn [negb].
    + apply Hfix; [apply rstrip_idem | done].
    + rewrite Hs. apply Hfix; apply closed_text_marked.
  - destruct (endswith u (of_string "(closed)")) eqn:He; cbn [negb]; [done|].
    rewrite Hs. apply closed_text_marked.
  - intros Hb. subst u. rewrite (rstrip_blank _ Hb). reflexivity.
Qed.

(** X14.  [format_stats] shows every field: two snapshots have the same
    text only if they agree on all five numbers. *)
Theorem format_stats_injective s1 s2 :
  format_stats s1 = format_stats s2 ↔ s1 = s2.
Proof.
  split; [|by intros ->].
  destruct s1 as [u1 m1 c1 r1 a1], s2 as [u2 m2 c2 r2 a2].
  unfold format_stats.
  cbn [total_users msgs_total cmds_total rpm_1m active_users_5m].
  intros H.
  do 3 apply app_inv_head in H. apply app_inv_head in H.
  apply app_inv_head in H.
  apply str_split in H as [-> H]; [|done..].
  do 2 apply app_inv_head in H.
  apply str_split in H as [-> H]; [|done..].
  do 2 apply app_inv_head in H.
  apply str_split in H as [-> H]; [|done..].
  do 2 apply app_inv_head in H.
  apply str_split in H as [-> H]; [|done..].
  do 2 apply app_inv_head in H.
  by apply of_string_inj, str_inj in H as ->.
Qed.

(** ** The handlers *)

Module HandlerFacts.
Import Str Bot StrFacts.

Lemma metrics_ok {A} (c : call A) w a :
  (c (store w)).2 = Ok a →
  metrics c w = (World (c (store w)).1 (gauges w) (sent w), Done a).
Proof. unfold metrics. destruct (c (store w)) as [db r]. simpl. by intros ->. Qed.

Lemma metrics_raise {A} (c : call A) w e :
  (c (store w)).2 = Raise e →
  metrics c w = (World (c (store w)).1 (gauges w) (sent w), Raised (Builtin e)).
Proof. unfold metrics. destruct (c (store w)) as [db r]. simpl. by intros ->. Qed.

Lemma metrics_world {A} (c : call A) w :
  (metrics c w).1 = World (c (store w)).1 (gauges w) (sent w).
Proof. unfold metrics. by destruct (c (store w)) as [db r]. Qed.

Lemma bind_done {A B} (c : io A) (k : A → io B) w w' a :
  c w = (w', Done a) → (c ≫= k) w = k a w'.
Proof. unfold mbind, io_mbind, io_bind. by intros ->. Qed.

Lemma bind_raised {A B} (c : io A) (k : A → io B) w w' e :
  c w = (w', Raised e) → (c ≫= k) w = (w', Raised e).
Proof. unfold mbind, io_mbind, io_bind. by intros ->. Qed.

Lemma keeps_send api rq : keeps_store (send api rq).
Proof. done. Qed.
Lemma keeps_ret {A} (a : A) : keeps_store (mret a).
Proof. done. Qed.
Lemma keeps_raise {A} e : keeps_store (@raise A e).
Proof. done. Qed.
Lemma keeps_gauge_set u v : keeps_store (gauge_set u v).
Proof. intros w. unfold gauge_set. by destruct (float_of_int v). Qed.
Lemma keeps_registered : keeps_store registered.
Proof. done. Qed.
Lemma keeps_bind {A B} (c : io A) (k : A → io B) :
  keeps_store c → (∀ a, keeps_store (k a)) → keeps_store (c ≫= k).
Proof.
  intros Hc Hk w. unfold mbind, io_mbind, io_bind.
  specialize (Hc w). destruct (c w) as [w' [a|e]]; simpl in *; [|done].
  by rewrite Hk.
Qed.
Lemma keeps_try {A} (c : io A) h :
  keeps_store c → (∀ e k, h e = Some k → keeps_store k) →
  keeps_store (try_except c h).
Proof.
  intros Hc Hh w. unfold try_except.
  specialize (Hc w). destruct (c w) as [w' [a|e]]; simpl in *; [done|].
  destruct (h e) as [k|] eqn:E; [|done]. by rewrite (Hh _ _ E).
Qed.

Lemma store_bind {A B} (c : io A) (k : A → io B) w :
  (∀ a, keeps_store (k a)) → store ((c ≫= k) w).1 = store (c w).1.
Proof.
  intros Hk. unfold mbind, io_mbind, io_bind.
  destruct (c w) as [w' [a|e]]; simpl; [|done]. by rewrite Hk.
Qed.

Lemma store_bind_metrics {A B} (c : call A) (k : A → io B) w :
  (∀ a, keeps_store (k a)) →
  store ((metrics c ≫= k) w).1 = (c (store w)).1.
Proof.
  intros Hk. unfold mbind, io_mbind, io_bind, metrics.
  destruct (c (store w)) as [db [a|e]]; simpl; [|done]. by rewrite Hk.
Qed.

Lemma keeps_cb_close api cb : keeps_store (cb_close api cb).
Proof.
  unfold cb_close. apply keeps_bind; [|intros; apply keeps_send].
  apply keeps_try.
  - destruct (message cb); [apply keeps_send | apply keeps_raise].
  - intros [] k [=]; subst. destruct (negb _); [|apply keeps_ret].
    apply keeps_try; [apply keeps_send|].
    intros e k'. destruct (is_exception e); intros [=]; subst. apply keeps_ret.
Qed.

Lemma store_handle api u w :
  well_typed (store w) →
  store (handle api u w).1 = run_ops (calls_of u) (store w).
Proof.
  intros Ht. destruct u as [m now|m now|m now|cb now|cb|now];
    cbn [handle calls_of]; unfold run_ops; cbn [foldl step].
  - unfold cmd_start. rewrite store_bind_metrics; [done|].
    intros; apply keeps_send.
  - unfold cmd_stats.
    destruct (note_message_typed (chat_id m) true now _ Ht) as (Hr & _).
    cbn zeta in Hr. rewrite (bind_done _ _ _ _ _ (metrics_ok _ _ _ Hr)).
    cbv beta. rewrite store_bind_metrics; [done|]. intros; apply keeps_send.
  - unfold any_message. by rewrite metrics_world.
  - unfold cb_refresh. rewrite store_bind_metrics; [done|].
    intros s. apply keeps_bind; [|intros; apply keeps_send].
    apply keeps_try.
    + destruct (message cb); [apply keeps_send | apply keeps_raise].
    + intros [] k [=]; subst. destruct (negb _); [apply keeps_raise|apply keeps_ret].
  - apply keeps_cb_close.
  - rewrite store_bind by (intros; apply keeps_ret).
    unfold metrics_handler. rewrite store_bind_metrics; [done|]. intros s.
    repeat (apply keeps_bind; [apply keeps_gauge_set | intros _]).
    apply keeps_registered.
Qed.

Lemma step_well_typed o db : well_typed db → well_typed (step o db).
Proof.
  intros Ht. destruct o as [c b t|now]; cbn [step].
  - by destruct (note_message_typed c b t _ Ht) as (_ & ? & _).
  - by destruct (snapshot_typed now _ Ht) as (_ & ? & _).
Qed.

Lemma run_ops_keeps_typed ops db : well_typed db → well_typed (run_ops ops db).
Proof.
  revert db. induction ops as [|o ops IH]; intros db Ht; [done|].
  rewrite run_ops_cons. by apply IH, step_well_typed.
Qed.

End HandlerFacts.
Import Str Bot HandlerFacts.

(** X15.  Whatever the Bot API answers, the store after the handlers of any
    updates and scrapes is the store after the aggregator calls of these
    handlers, in order: no failure of a reply, an edit or an answer loses or
    adds a count, and closing a panel counts nothing. *)
Theorem handlers_refine_aggregator api us w :
  well_typed (store w) →
  store (handle_all api us w) = run_ops (us ≫= calls_of) (store w).
Proof.
  revert w. induction us as [|u us IH]; intros w Ht; [done|].
  cbn [mbind list_bind]. unfold handle_all. cbn [foldl].
  fold (handle_all api us (handle api u w).1).
  rewrite run_ops_app, <- (store_handle api u w Ht). apply IH.
  rewrite store_handle by done. by apply run_ops_keeps_typed.
Qed.

Lemma handlers_refine_aggregator_witness :
  let api : list request → request → option raised :=
    λ _ _, Some (TelegramBadRequest "Bad Request: chat not found") in
  let m := mk_Message 7 (Some (of_string "/stats")) in
  let us := [Stats m 1000; Refresh (mk_CallbackQuery (Some m)) 1010;
             Close (mk_CallbackQuery None); Scrape 1020] in
  let w := World ∅ (Registry Text.NaN Text.NaN Text.NaN Text.NaN Text.NaN) [] in
  store (handle_all api us w) = run_ops (us ≫= calls_of) (store w).
Proof.
  cbn zeta. apply handlers_refine_aggregator. apply well_typed_empty.
Defined.

Module ReplyFacts.
Import Str Bot.


Lemma send_eq api rq w :
  send api rq w
  = (World (store w) (gauges w) (sent w ++ [rq]),
     match api (sent w) rq with None => Done tt | Some e => Raised e end).
Proof. done. Qed.

End ReplyFacts.
Import ReplyFacts.



(** X17.  [cb_close] lets no [TelegramBadRequest] of its edit escape and
    no [Exception] of its fall-back: when it raises, either the callback had
    no message and nothing was sent, or the error is that of the last
    request sent, which is the edit (and the error no [TelegramBadRequest]),
    the fall-back (and the error no [Exception]) or the answer. *)
Theorem cb_close_raises_only api cb w e :
  (cb_close api cb w).2 = Raised e →
  (message cb = None ∧ e = AttributeError ∧ sent (cb_close api cb w).1 = sent w)
  ∨ ∃ h rq, sent (cb_close api cb w).1 = h ++ [rq] ∧ api h rq = Some e
            ∧ match rq with
              | EditMessageText _ _ => ∀ d, e ≠ TelegramBadRequest d
              | EditMessageReplyMarkup _ => is_exception e = false
              | AnswerCallbackQuery _ => True
              | SendMessage _ _ _ => False
              end.
Proof.
  unfold cb_close, mbind, io_mbind, io_bind, try_except.
  destruct (message cb) as [m|]; [|intros [= <-]; by left].
  rewrite send_eq.
  destruct (api (sent w) (EditMessageText (closed_text (text m)) None))
    as [e1|] eqn:E1.
  - destruct e1 as [x|x| |d|x];
      try (cbn; intros [= <-]; right; do 2 eexists;
           split; [reflexivity|]; split; [exact E1|]; by intros d).
    cbv beta iota. destruct (negb (not_modified d)).
    + rewrite send_eq. cbn [sent store gauges].
      destruct (api (sent w ++ [EditMessageText (closed_text (text m)) None])
                  (EditMessageReplyMarkup None)) as [e2|] eqn:E2.
      * destruct (is_exception e2) eqn:Ex.
        -- cbn. case_match eqn:E3; intros [= <-]. right. do 2 eexists.
           split; [reflexivity|]. by split.
        -- intros [= <-]. right. do 2 eexists.
           split; [reflexivity|]. by split.
      * cbn. case_match eqn:E3; intros [= <-]. right. do 2 eexists.
        split; [reflexivity|]. by split.
    + cbn. case_match eqn:E3; intros [= <-]. right. do 2 eexists.
      split; [reflexivity|]. by split.
  - cbn. case_match eqn:E3; intros [= <-]. right. do 2 eexists.
    split; [reflexivity|]. by split.
Qed.

Lemma cb_close_raises_only_witness :
  let api : list request → request → option raised :=
    λ _ rq, match rq with
            | EditMessageText _ _ =>
                Some (TelegramBadRequest "Bad Request: message can't be edited")
            | EditMessageReplyMarkup _ => Some (OtherError false)
            | _ => None
            end in
  let cb := mk_CallbackQuery (Some (mk_Message 7 (Some (of_string "Live")))) in
  let w := World ∅ (Registry Text.NaN Text.NaN Text.NaN Text.NaN Text.NaN) [] in
  let e := OtherError false in
  (message cb = None ∧ e = AttributeError ∧ sent (cb_close api cb w).1 = sent w)
  ∨ ∃ h rq, sent (cb_close api cb w).1 = h ++ [rq] ∧ api h rq = Some e
            ∧ match rq with
              | EditMessageText _ _ => ∀ d, e ≠ TelegramBadRequest d
              | EditMessageReplyMarkup _ => is_exception e = false
              | AnswerCallbackQuery _ => True
              | SendMessage _ _ _ => False
              end.
Proof. cbn zeta. apply cb_close_raises_only. reflexivity. Defined.

(** X18.  If the Bot API rejects the edit of [cb_close] with nothing but a
    [TelegramBadRequest], and the fall-back with nothing but an
    [Exception], the callback is answered: the last request is the answer
    ["Closed"], and what [cb_close] returns or raises is what this answer
    does. *)
Theorem cb_close_answers api cb m w :
  message cb = Some m →
  (∀ e, api (sent w) (EditMessageText (closed_text (text m)) None) = Some e →
        ∃ d, e = TelegramBadRequest d) →
  (∀ h e, api h (EditMessageReplyMarkup None) = Some e → is_exception e = true) →
  ∃ h, sent (cb_close api cb w).1 = h ++ [AnswerCallbackQuery (of_string "Closed")]
       ∧ (cb_close api cb w).2
         = match api h (AnswerCallbackQuery (of_string "Closed")) with
           | None => Done tt
           | Some e => Raised e
           end.
Proof.
  intros Hm Hedit Hfall.
  unfold cb_close, mbind, io_mbind, io_bind, try_except. rewrite Hm, send_eq.
  destruct (api (sent w) (EditMessageText (closed_text (text m)) None))
    as [e1|] eqn:E1.
  - destruct (Hedit _ eq_refl) as [d ->]. cbv beta iota.
    destruct (negb (not_modified d)).
    + rewrite send_eq. cbn [sent store gauges].
      destruct (api (sent w ++ [EditMessageText (closed_text (text m)) None])
                  (EditMessageReplyMarkup None)) as [e2|] eqn:E2.
      * rewrite (Hfall _ _ E2). cbn. eexists. by split.
      * cbn. eexists. by split.
    + cbn. eexists. by split.
  - cbn. eexists. by split.
Qed.

Lemma cb_close_answers_witness :
  let api : list request → request → option raised :=
    λ _ rq, match rq with
            | EditMessageText _ _ =>
                Some (TelegramBadRequest "Bad Request: message can't be edited")
            | EditMessageReplyMarkup _ =>
                Some (TelegramBadRequest "Bad Request: message to edit not found")
            | _ => None
            end in
  let m := mk_Message 7 None in
  let cb := mk_CallbackQuery (Some m) in
  let w := World ∅ (Registry Text.NaN Text.NaN Text.NaN Text.NaN Text.NaN) [] in
  ∃ h, sent (cb_close api cb w).1 = h ++ [AnswerCallbackQuery (of_string "Closed")]
       ∧ (cb_close api cb w).2
         = match api h (AnswerCallbackQuery (of_string "Closed")) with
           | None => Done tt
           | Some e => Raised e
           end.
Proof.
  cbn zeta. apply (cb_close_answers _ _ (mk_Message 7 None)); [reflexivity | |].
  - intros e [= <-]. by eexists.
  - intros h e [= <-]. reflexivity.
Defined.

(** X19.  [cb_refresh] answers ["Updated"] only for a panel that shows the
    snapshot: if it sends the answer, the snapshot returned, the requests
    sent are the edit with the text of this snapshot and then the answer,
    and the Bot API accepted the edit or rejected it as not modified. *)
Theorem cb_refresh_answer_sound api cb now w :
  AnswerCallbackQuery (of_string "Updated")
    ∈ drop (length (sent w)) (sent (cb_refresh api cb now w).1) →
  ∃ s, (snapshot now (store w)).2 = Ok s
       ∧ sent (cb_refresh api cb now w).1
         = sent w ++ [EditMessageText (format_stats s) (Some stats_keyboard);
                      AnswerCallbackQuery (of_string "Updated")]
       ∧ (api (sent w) (EditMessageText (format_stats s) (Some stats_keyboard))
          = None
          ∨ ∃ d, api (sent w) (EditMessageText (format_stats s) (Some stats_keyboard))
                 = Some (TelegramBadRequest d)
                 ∧ not_modified d = true).
Proof.
  unfold cb_refresh, mbind, io_mbind, io_bind, try_except, metrics.
  destruct (snapshot now (store w)) as [db [s|e]]; cbn [fst snd sent].
  2:{ rewrite drop_all. by intros ?%elem_of_nil. }
  destruct (message cb) as [m|].
  2:{ cbn. rewrite drop_all. by intros ?%elem_of_nil. }
  rewrite send_eq. cbn [sent store gauges].
  destruct (api (sent w) (EditMessageText (format_stats s) (Some stats_keyboard)))
    as [e1|] eqn:E1.
  - destruct e1 as [x|x| |d|x];
      try (cbn; rewrite drop_app_length;
           intros [=]%list_elem_of_singleton).
    cbv beta iota. destruct (not_modified d) eqn:Ed; cbn.
    + intros _. exists s. split_and!; [done | by rewrite <- app_assoc|].
      right. by exists d.
    + rewrite drop_app_length. intros [=]%list_elem_of_singleton.
  - cbn. intros _. exists s. split_and!; [done | by rewrite <- app_assoc|].
    by left.
Qed.

Lemma cb_refresh_answer_sound_witness :
  let api : list request → request → option raised :=
    λ _ rq, match rq with
            | EditMessageText _ _ =>
                Some (TelegramBadRequest
                  "Telegram server says - Bad Request: message is not modified: specified new message content and reply markup are exactly the same as a current content and reply markup of the message")
            | _ => None
            end in
  let cb := mk_CallbackQuery (Some (mk_Message 7 None)) in
  let w := World ∅ (Registry Text.NaN Text.NaN Text.NaN Text.NaN Text.NaN) [] in
  ∃ s, (snapshot 1000 (store w)).2 = Ok s
       ∧ sent (cb_refresh api cb 1000 w).1
         = sent w ++ [EditMessageText (format_stats s) (Some stats_keyboard);
                      AnswerCallbackQuery (of_string "Updated")]
       ∧ (api (sent w) (EditMessageText (format_stats s) (Some stats_keyboard))
          = None
          ∨ ∃ d, api (sent w) (EditMessageText (format_stats s) (Some stats_keyboard))
                 = Some (TelegramBadRequest d)
                 ∧ not_modified d = true).
Proof.
  cbn zeta. apply cb_refresh_answer_sound. vm_compute.
  apply list_elem_of_here || (right; left).
Defined.

(** ** The scrape endpoint and the configuration *)

Module ScrapeFacts.
Import Str Bot.

Lemma float_of_int_exact n :
  0 <= n <= 2 ^ 53 →
  ∃ x, float_of_int n = Ok x ∧ Text.int_of_float x = Ok n.
Proof.
  intros Hn. unfold float_of_int.
  replace (n <? 0) with false by (symmetry; apply Z.ltb_ge; lia).
  rewrite Z.abs_eq by lia.
  pose proof (binary64_exact false n Hn) as Hx. cbn [Text.apply_sign] in Hx.
  destruct (Text.binary64 false n 1) as [neg m e|neg|]; try done; eauto.
Qed.

Lemma float_of_int_raise n e : float_of_int n = Raise e → e = OverflowError.
Proof.
  unfold float_of_int. destruct (Text.binary64 _ _ _); by intros [=].
Qed.

Lemma gauge_set_ok u v w x :
  float_of_int v = Ok x →
  gauge_set u v w = (World (store w) (u x (gauges w)) (sent w), Done tt).
Proof. unfold gauge_set. by intros ->. Qed.

(** After calls on an empty store, no field of a snapshot exceeds the number
    of [record] calls. *)
Lemma snapshot_bounded ops now :
  ∃ s, (snapshot now (run_ops ops ∅)).2 = Ok s
       ∧ Forall (λ v, 0 <= v <= Z.of_nat (length (records ops)))
           [msgs_total s; cmds_total s; total_users s; active_users_5m s;
            rpm_1m s].
Proof.
  destruct (run_ops_typed ops ∅ well_typed_empty) as (Ht & Em & Ec & Eu & Ed & _).
  destruct (snapshot_typed now _ Ht) as (Es & _).
  cbn zeta in *. eexists. split; [exact Es|].
  cbn [cmds_total msgs_total total_users rpm_1m active_users_5m].
  rewrite Em, Ec, Eu, !lookup_empty, size_seconds_window, active_count.
  cbn [counter_of set_of]. rewrite (right_id_L ∅ (∪)).
  pose proof (length_filter (λ r : Z * bool * Z, r.1.2 = true) (records ops)) as H1.
  fold (notable ops) in H1.
  pose proof (size_subjects_le (subjects ops)) as H2.
  unfold subjects in H2 at 2. rewrite length_fmap in H2.
  pose proof (size_seconds_le ops) as H3.
  assert (filter (λ t, now - 60 <= t <= now) (seconds ops) ⊆ seconds ops)
    as H4%subseteq_size by (intros ? [_ ?]%elem_of_filter; done).
  assert (size (filter (λ e : string * string, within_5m now e.2)
                  (hash_of (run_ops ops ∅ !! k_last)))
          ≤ size (list_to_set (C := gset string) (Text.str <$> subjects ops)))%nat
    as H5.
  { rewrite lookup_empty in Ed. cbn [hash_of] in Ed.
    rewrite dom_empty_L, (right_id_L ∅ (∪)) in Ed. rewrite <- Ed, size_dom.
    apply map_subseteq_size, map_filter_subseteq. }
  repeat constructor; lia.
Qed.

End ScrapeFacts.
Import ScrapeFacts.

(** X20.  A scrape after at most 2^53 [record] calls on an empty store
    returns with every gauge holding exactly the field of the snapshot: no
    rounding, whatever the gauges held before. *)
Theorem scrape_sets_gauges ops now g rs :
  Z.of_nat (length (records ops)) <= 2 ^ 53 →
  ∃ s reg, (snapshot now (run_ops ops ∅)).2 = Ok s
           ∧ (metrics_handler now (World (run_ops ops ∅) g rs)).2 = Done reg
           ∧ gauges (metrics_handler now (World (run_ops ops ∅) g rs)).1 = reg
           ∧ Text.int_of_float (G_MSGS reg) = Ok (msgs_total s)
           ∧ Text.int_of_float (G_CMDS reg) = Ok (cmds_total s)
           ∧ Text.int_of_float (G_USERS reg) = Ok (total_users s)
           ∧ Text.int_of_float (G_ACTIVE5 reg) = Ok (active_users_5m s)
           ∧ Text.int_of_float (G_RPM1 reg) = Ok (rpm_1m s).
Proof.
  intros Hn. destruct (snapshot_bounded ops now) as (s & Hs & Hb).
  rewrite !Forall_cons in Hb. destruct Hb as (Hm & Hc & Hu & Ha & Hr & _).
  destruct (float_of_int_exact (msgs_total s)) as (xm & Fm & Im); [lia|].
  destruct (float_of_int_exact (cmds_total s)) as (xc & Fc & Ic); [lia|].
  destruct (float_of_int_exact (total_users s)) as (xu & Fu & Iu); [lia|].
  destruct (float_of_int_exact (active_users_5m s)) as (xa & Fa & Ia); [lia|].
  destruct (float_of_int_exact (rpm_1m s)) as (xr & Fr & Ir); [lia|].
  exists s, (Registry xm xc xu xa xr). split; [exact Hs|].
  unfold metrics_handler.
  rewrite (bind_done _ _ _ _ _
             (metrics_ok (snapshot now) (World (run_ops ops ∅) g rs) _ Hs)).
  rewrite (bind_done _ _ _ _ _ (gauge_set_ok _ _ _ _ Fm)).
  rewrite (bind_done _ _ _ _ _ (gauge_set_ok _ _ _ _ Fc)).
  rewrite (bind_done _ _ _ _ _ (gauge_set_ok _ _ _ _ Fu)).
  rewrite (bind_done _ _ _ _ _ (gauge_set_ok _ _ _ _ Fa)).
  rewrite (bind_done _ _ _ _ _ (gauge_set_ok _ _ _ _ Fr)).
  by split_and!.
Qed.

Lemma scrape_sets_gauges_witness :
  let ops := [Record 1 true 1000; Record 2 false 1030; Snapshot 1040] in
  let g := Registry Text.NaN Text.NaN Text.NaN Text.NaN Text.NaN in
  ∃ s reg, (snapshot 1060 (run_ops ops ∅)).2 = Ok s
           ∧ (metrics_handler 1060 (World (run_ops ops ∅) g [])).2 = Done reg
           ∧ gauges (metrics_handler 1060 (World (run_ops ops ∅) g [])).1 = reg
           ∧ Text.int_of_float (G_MSGS reg) = Ok (msgs_total s)
           ∧ Text.int_of_float (G_CMDS reg) = Ok (cmds_total s)
           ∧ Text.int_of_float (G_USERS reg) = Ok (total_users s)
           ∧ Text.int_of_float (G_ACTIVE5 reg) = Ok (active_users_5m s)
           ∧ Text.int_of_float (G_RPM1 reg) = Ok (rpm_1m s).
Proof. cbn zeta. apply scrape_sets_gauges. by vm_compute. Defined.

(** X21.  A scrape that fails leaves the gauges as they were, stale but
    consistent, unless the failure is the [OverflowError] of a counter too
    large for a float: when [metrics_handler] raises, either [snapshot]
    raised this error and no gauge has changed, or the error is
    [OverflowError]. *)
Theorem scrape_failure now w e :
  (metrics_handler now w).2 = Raised e →
  (∃ e0, (snapshot now (store w)).2 = Raise e0 ∧ e = Builtin e0
         ∧ gauges (metrics_handler now w).1 = gauges w)
  ∨ e = Builtin OverflowError.
Proof.
  unfold metrics_handler, mbind, io_mbind, io_bind, metrics, gauge_set,
    registered.
  destruct (snapshot now (store w)) as [db [s|e0]]; cbn [fst snd].
  2:{ intros [= <-]. left. by exists e0. }
  intros H. right. revert H.
  repeat (match goal with
          | |- context [float_of_int ?v] =>
              destruct (float_of_int v) as [?|?] eqn:?
          end; cbn [fst snd store gauges sent];
          [|intros [= <-]; f_equal; by eapply float_of_int_raise]).
  done.
Qed.

Lemma scrape_failure_witness :
  let w := World {[ k_users := RString "7" ]}
             (Registry Text.NaN Text.NaN Text.NaN Text.NaN Text.NaN) [] in
  let e := Builtin wrongtype in
  (∃ e0, (snapshot 1000 (store w)).2 = Raise e0 ∧ e = Builtin e0
         ∧ gauges (metrics_handler 1000 w).1 = gauges w)
  ∨ e = Builtin OverflowError.
Proof. cbn zeta. apply scrape_failure. reflexivity. Defined.



